(** * WhatsApp chat summarizer: transcript reconstruction pipeline

    A shallow embedding of [src/app.py]: the archive extractor
    ([unzip_chat]), the audio transcription adapter ([transcribe_audio]) and
    the transcript builder ([build_full_transcript], i.e. the block parser
    followed by the media substitution pass), with the properties the
    specification states about them.

    Conventions.
    - A Python [str] is a Rocq [string]: the UTF-8 bytes of the text.  The
      patterns of the program only anchor on ASCII text (and on U+200E, three
      fixed bytes), and a byte of a multi-byte UTF-8 sequence is never an
      ASCII byte, so matching bytes and matching code points find the same
      matches and the same groups.
    - [\d] is the ASCII digits.  Python's [\d] also accepts the other
      decimal digits of Unicode; no result below depends on which lines are
      header lines, only on the fact that the program asks the same question
      of every line.
    - Exceptions are values ([outcome]); only subclasses of [Exception] are
      modelled.
    - Effects on the outside world (files, the speech-to-text service) go
      through an explicit [world], threaded by a state-and-exception monad. *)

From Stdlib Require Import ZArith Ascii String List Lia Bool.
From stdpp Require Import base option list strings gmap.

Set Warnings "-register-all".

Open Scope Z_scope.
Open Scope nat_scope.

(* ===================================================================== *)
(** * Strings                                                             *)
(* ===================================================================== *)

Module Str.

Definition newline : ascii := "010"%char.

(** U+200E LEFT-TO-RIGHT MARK, as UTF-8. *)
Definition lrm : string :=
  String "226"%char (String "128"%char (String "142"%char "")).

Fixpoint take (n : nat) (s : string) : string :=
  match n, s with
  | S n', String a s' => String a (take n' s')
  | _, _ => ""
  end.

Fixpoint drop (n : nat) (s : string) : string :=
  match n, s with
  | S n', String _ s' => drop n' s'
  | _, _ => s
  end.

(** [strip_prefix l s]: the rest of [s] after its prefix [l], if [s] starts
    with [l]. *)
Fixpoint strip_prefix (l s : string) : option string :=
  match l with
  | "" => Some s
  | String a l' =>
      match s with
      | String b s' => if decide (a = b) then strip_prefix l' s' else None
      | "" => None
      end
  end.

Definition starts_with (l s : string) : bool :=
  bool_decide (is_Some (strip_prefix l s)).

Definition ends_with (l s : string) : bool :=
  bool_decide (Str.drop (String.length s - String.length l) s = l
               ∧ String.length l <= String.length s).

(** [str.join] with the empty separator. *)
Definition concat (l : list string) : string :=
  foldr String.app "" l.

(** [s.split(sep)] for a one-character separator. *)
Fixpoint split_go (sep : ascii) (cur : string) (s : string) : list string :=
  match s with
  | "" => [String.rev cur]
  | String a s' =>
      if decide (a = sep) then String.rev cur :: split_go sep "" s'
      else split_go sep (String a cur) s'
  end.
Definition split (sep : ascii) (s : string) : list string :=
  split_go sep "" s.

(** [l[-1]] of a list of strings (the empty string stands for the
    [IndexError] of an empty list, which [split] never returns). *)
Definition last_item (l : list string) : string := List.last l "".

Definition lower_ascii (a : ascii) : ascii :=
  let n := nat_of_ascii a in
  if (65 <=? n) && (n <=? 90) then ascii_of_nat (n + 32) else a.

(** [s.lower()] on the ASCII letters. *)
Fixpoint lower (s : string) : string :=
  match s with
  | "" => ""
  | String a s' => String (lower_ascii a) (lower s')
  end.

(** [s.rfind(c)]: [None] is Python's [-1]. *)
Fixpoint rfind_go (c : ascii) (i : nat) (s : string) (found : option nat)
  : option nat :=
  match s with
  | "" => found
  | String a s' =>
      rfind_go c (S i) s' (if decide (a = c) then Some i else found)
  end.
Definition rfind (c : ascii) (s : string) : option nat := rfind_go c 0 s None.

Definition is_digit (a : ascii) : bool :=
  let n := nat_of_ascii a in (48 <=? n) && (n <=? 57).

(** [int(s)] for a string of ASCII digits. *)
Fixpoint int_go (acc : Z) (s : string) : option Z :=
  match s with
  | "" => Some acc
  | String a s' =>
      if is_digit a
      then int_go (10 * acc + Z.of_nat (nat_of_ascii a - 48))%Z s'
      else None
  end.
Definition int (s : string) : option Z :=
  match s with "" => None | _ => int_go 0%Z s end.

End Str.

(* ===================================================================== *)
(** * Regular expressions, matched as Python's [re] does                  *)
(* ===================================================================== *)

(** The fragment of [re] syntax that the program's patterns (and those of
    [strptime]) are written in. *)
Inductive regex : Type :=
| Bol                                  (* ^ *)
| Lit (l : string)                     (* literal text *)
| Class (p : ascii → bool)             (* one character of a class *)
| LazyStar (p : ascii → bool)          (* c*? *)
| Repeat (p : ascii → bool) (lo hi : nat)  (* c{lo,hi}, greedy *)
| Opt (r : regex)                      (* r?, greedy *)
| Seq (r1 r2 : regex)                  (* r1 r2 *)
| Alt (r1 r2 : regex)                  (* r1|r2 *)
| Group (n : nat) (r : regex).         (* capturing group number n *)

Module Re.

(** The groups set so far: number ↦ captured text.  A group that took no
    part in the match has no entry ([m.group(n)] is [None]). *)
Abbreviation groups := (gmap nat string).

(** A continuation gets the position reached, the text still to read and
    the groups; [None] makes the matcher backtrack. *)
Definition cont : Type := nat → string → groups → option groups.

Definition any_char (a : ascii) : bool := negb (bool_decide (a = Str.newline)).
Definition in_range (lo hi : ascii) (a : ascii) : bool :=
  (nat_of_ascii lo <=? nat_of_ascii a) && (nat_of_ascii a <=? nat_of_ascii hi).

Fixpoint lazy_star (p : ascii → bool) (k : cont)
    (pos : nat) (s : string) (g : groups) : option groups :=
  match k pos s g with
  | Some m => Some m
  | None =>
      match s with
      | String a s' => if p a then lazy_star p k (S pos) s' g else None
      | "" => None
      end
  end.

Fixpoint exactly (p : ascii → bool) (n : nat) (k : cont)
    (pos : nat) (s : string) (g : groups) : option groups :=
  match n with
  | 0 => k pos s g
  | S n' =>
      match s with
      | String a s' => if p a then exactly p n' k (S pos) s' g else None
      | "" => None
      end
  end.

Fixpoint at_most (p : ascii → bool) (n : nat) (k : cont)
    (pos : nat) (s : string) (g : groups) : option groups :=
  match n with
  | 0 => k pos s g
  | S n' =>
      match s with
      | String a s' =>
          if p a then
            match at_most p n' k (S pos) s' g with
            | Some m => Some m
            | None => k pos s g
            end
          else k pos s g
      | "" => k pos s g
      end
  end.

(** The backtracking matcher: alternatives are tried in the order [re]
    tries them, and the first complete match wins. *)
Fixpoint run (r : regex) (k : cont)
    (pos : nat) (s : string) (g : groups) : option groups :=
  match r with
  | Bol => if decide (pos = 0) then k pos s g else None
  | Lit l =>
      match Str.strip_prefix l s with
      | Some s' => k (pos + String.length l) s' g
      | None => None
      end
  | Class p =>
      match s with
      | String a s' => if p a then k (S pos) s' g else None
      | "" => None
      end
  | LazyStar p => lazy_star p k pos s g
  | Repeat p lo hi => exactly p lo (at_most p (hi - lo) k) pos s g
  | Opt r1 =>
      match run r1 k pos s g with
      | Some m => Some m
      | None => k pos s g
      end
  | Seq r1 r2 => run r1 (run r2 k) pos s g
  | Alt r1 r2 =>
      match run r1 k pos s g with
      | Some m => Some m
      | None => run r2 k pos s g
      end
  | Group n r1 =>
      run r1 (fun pos' s' g' => k pos' s' (<[n := Str.take (pos' - pos) s]> g'))
          pos s g
  end.

Definition accept : cont := fun _ _ g => Some g.

(** [pattern.match(s)]: a match at the start of [s].  Group 0 is the
    whole match. *)
Definition match_ (r : regex) (s : string) : option groups :=
  run (Group 0 r) accept 0 s ∅.

Fixpoint search_from (r : regex) (pos : nat) (s : string) : option groups :=
  match run (Group 0 r) accept pos s ∅ with
  | Some m => Some m
  | None =>
      match s with
      | String _ s' => search_from r (S pos) s'
      | "" => None
      end
  end.

(** [pattern.search(s)]: the leftmost match. *)
Definition search (r : regex) (s : string) : option groups :=
  search_from r 0 s.

(** [m.group(n)] *)
Definition group (m : groups) (n : nat) : option string := m !! n.

Definition seqs (l : list regex) : regex := foldr Seq (Lit "") l.

End Re.

Definition date_digits : regex :=
  Re.seqs [ Repeat Str.is_digit 2 2; Lit "."; Repeat Str.is_digit 2 2; Lit ".";
            Repeat Str.is_digit 2 4 ].

(** [r"^\u200e?\[(\d{2}\.\d{2}\.\d{2,4}), "] *)
Definition date_line_pattern : regex :=
  Re.seqs [ Bol; Opt (Lit Str.lrm); Lit "["; Group 1 date_digits; Lit ", " ].

Definition audio_ext : regex := Alt (Lit "opus") (Lit "ogg").

(** [(.*?\.(?:opus|ogg))] as group [n] *)
Definition audio_name (n : nat) : regex :=
  Group n (Re.seqs [ LazyStar Re.any_char; Lit "."; audio_ext ]).

(** [r"(\[.*?\] .*?:).*?(?:<Anhang: (.*?\.(?:opus|ogg))>|<Medien ausgeschlossen> \(Datei angehängt: (.*?\.(?:opus|ogg))\))"] *)
Definition audio_line_pattern : regex :=
  Re.seqs
    [ Group 1 (Re.seqs [ Lit "["; LazyStar Re.any_char; Lit "] ";
                         LazyStar Re.any_char; Lit ":" ]);
      LazyStar Re.any_char;
      Alt (Re.seqs [ Lit "<Anhang: "; audio_name 2; Lit ">" ])
          (Re.seqs [ Lit "<Medien ausgeschlossen> (Datei angehängt: ";
                     audio_name 3; Lit ")" ]) ].

Definition nl : string := String Str.newline "".

(* ===================================================================== *)
(** * [datetime]                                                          *)
(* ===================================================================== *)

Module Datetime.

(** A naive [datetime.datetime]. *)
Record datetime : Type := mk {
  year : Z; month : Z; day : Z;
  hour : Z; minute : Z; second : Z; microsecond : Z
}.

Definition to_tuple (d : datetime) : list Z :=
  [year d; month d; day d; hour d; minute d; second d; microsecond d].

Fixpoint lex_le (a b : list Z) : bool :=
  match a, b with
  | [], _ => true
  | _ :: _, [] => false
  | x :: a', y :: b' =>
      if (x <? y)%Z then true else if (y <? x)%Z then false else lex_le a' b'
  end.

(** [a >= b] *)
Definition ge (a b : datetime) : bool := lex_le (to_tuple b) (to_tuple a).
(** [a < b] *)
Definition lt (a b : datetime) : bool := negb (ge a b).

Definition is_leap (y : Z) : bool :=
  ((y mod 4 =? 0) && negb (y mod 100 =? 0) || (y mod 400 =? 0))%Z.

Definition days_in_month (y m : Z) : Z :=
  if (m =? 2)%Z then (if is_leap y then 29 else 28)%Z
  else if ((m =? 4) || (m =? 6) || (m =? 9) || (m =? 11))%Z then 30%Z
  else 31%Z.

(** The range check of the [date] constructor ([MINYEAR] is 1, [MAXYEAR]
    is 9999). *)
Definition valid_date (y m d : Z) : bool :=
  ((1 <=? y) && (y <=? 9999) && (1 <=? m) && (m <=? 12) &&
   (1 <=? d) && (d <=? days_in_month y m))%Z.

(** The regular expressions [strptime] compiles the directives to
    (CPython, [Lib/_strptime.py]); the named groups are numbered 1 (day),
    2 (month), 3 (year). *)
Definition directive_d : regex :=
  Group 1 (Alt (Seq (Lit "3") (Class (Re.in_range "0" "1")))
          (Alt (Seq (Class (Re.in_range "1" "2")) (Class Str.is_digit))
          (Alt (Seq (Lit "0") (Class (Re.in_range "1" "9")))
          (Alt (Class (Re.in_range "1" "9"))
               (Seq (Lit " ") (Class (Re.in_range "1" "9"))))))).
Definition directive_m : regex :=
  Group 2 (Alt (Seq (Lit "1") (Class (Re.in_range "0" "2")))
          (Alt (Seq (Lit "0") (Class (Re.in_range "1" "9")))
               (Class (Re.in_range "1" "9")))).
Definition directive_y : regex := Group 3 (Repeat Str.is_digit 2 2).
Definition directive_Y : regex := Group 3 (Repeat Str.is_digit 4 4).

(** The two formats the program uses: ["%d.%m.%y"] and ["%d.%m.%Y"]. *)
Inductive format : Type := Fmt_dmy | Fmt_dmY.

Definition format_regex (f : format) : regex :=
  Re.seqs [ directive_d; Lit "."; directive_m; Lit ".";
            match f with Fmt_dmy => directive_y | Fmt_dmY => directive_Y end ].

Definition group_int (m : Re.groups) (n : nat) : option Z :=
  Re.group m n ≫= Str.int.

(** [datetime.strptime(data_string, format)]; [None] is [ValueError], the
    only exception it raises on a string. *)
Definition strptime (data_string : string) (f : format) : option datetime :=
  found ← Re.match_ (format_regex f) data_string;
  whole ← Re.group found 0;
  if decide (String.length data_string ≠ String.length whole) then None
  else
    d ← group_int found 1;
    m ← group_int found 2;
    y ← group_int found 3;
    let y' := match f with
              | Fmt_dmy => if (y <=? 68)%Z then (y + 2000)%Z else (y + 1900)%Z
              | Fmt_dmY => y
              end in
    if valid_date y' m d then Some (mk y' m d 0 0 0 0) else None.

End Datetime.

Export Datetime (datetime).

(* ===================================================================== *)
(** * The block parser ([build_full_transcript], first loop)             *)
(* ===================================================================== *)

(** [date_line_pattern.match(line)], as the text of group 1. *)
Definition date_match (line : string) : option string :=
  m ← Re.match_ date_line_pattern line; Re.group m 1.

Definition is_header (line : string) : bool := bool_decide (is_Some (date_match line)).

(** The [try ... except ValueError] around the two [strptime] calls. *)
Definition parse_block_date (date_str : string) : option datetime :=
  if decide (String.length (Str.last_item (Str.split "." date_str)) = 2)
  then Datetime.strptime date_str Datetime.Fmt_dmy
  else Datetime.strptime date_str Datetime.Fmt_dmY.

(** A message block: the lines collected in [current_block] and the value of
    [current_block_date] at the moment the block is closed. *)
Record block : Type := Block {
  blk_lines : list string;
  blk_date : option datetime
}.

(** The variables of the loop.  [closed] is a ghost variable: the program
    keeps no list of blocks, only the lines of those it retains; [closed]
    records every non-empty [current_block] at the two places where the
    program decides about it, with the decision taken. *)
Record parser_state : Type := ParserState {
  current_block : list string;
  current_block_date : option datetime;
  full_transcript_lines : list string;
  closed : list (block * bool)
}.

(** [current_block and (not start_dt or
      (current_block_date and current_block_date >= start_dt))];
    a [datetime] is always true as a condition, [None] and [[]] are false. *)
Definition retain (start_dt : option datetime)
    (current_block : list string) (current_block_date : option datetime) : bool :=
  bool_decide (current_block ≠ []) &&
  match start_dt with
  | None => true
  | Some cutoff =>
      match current_block_date with
      | None => false
      | Some d => Datetime.ge d cutoff
      end
  end.

(** The [if ...: full_transcript_lines.extend(current_block)] at a block
    change and after the loop. *)
Definition flush (start_dt : option datetime) (st : parser_state)
  : list string * list (block * bool) :=
  let keep := retain start_dt (current_block st) (current_block_date st) in
  ( if keep then full_transcript_lines st ++ current_block st
    else full_transcript_lines st,
    match current_block st with
    | [] => closed st
    | _ => closed st ++ [(Block (current_block st) (current_block_date st), keep)]
    end ).

(** One iteration of [for line in file]. *)
Definition parse_line (start_dt : option datetime)
    (st : parser_state) (line : string) : parser_state :=
  match date_match line with
  | Some date_str =>
      let '(full, cl) := flush start_dt st in
      {| current_block := [line];
         current_block_date := parse_block_date date_str;
         full_transcript_lines := full;
         closed := cl |}
  | None =>
      {| current_block := current_block st ++ [line];
         current_block_date := current_block_date st;
         full_transcript_lines := full_transcript_lines st;
         closed := closed st |}
  end.

Definition parser_init : parser_state :=
  {| current_block := []; current_block_date := None;
     full_transcript_lines := []; closed := [] |}.

(** The whole first loop, with the final flush, on the lines of the file. *)
Definition parse_blocks (start_dt : option datetime) (file : list string)
  : list string * list (block * bool) :=
  flush start_dt (fold_left (parse_line start_dt) file parser_init).

(** The lines handed to the substitution pass. *)
Definition retained_lines (start_dt : option datetime) (file : list string)
  : list string := fst (parse_blocks start_dt file).

(** The blocks of the file, in file order, with the decision on each. *)
Definition decided_blocks (start_dt : option datetime) (file : list string)
  : list (block * bool) := snd (parse_blocks start_dt file).

Definition retained_blocks (start_dt : option datetime) (file : list string)
  : list block := fst <$> filter (λ bk, snd bk = true) (decided_blocks start_dt file).

Definition discarded_blocks (start_dt : option datetime) (file : list string)
  : list block := fst <$> filter (λ bk, snd bk = false) (decided_blocks start_dt file).

Definition blocks (file : list string) : list block :=
  fst <$> decided_blocks None file.

Definition midnight (y m d : Z) : datetime := Datetime.mk y m d 0 0 0 0.

(* ===================================================================== *)
(** * Exceptions and effects                                              *)
(* ===================================================================== *)

(** The exceptions that matter here; [OtherError] is any other subclass of
    [Exception] (a failed decoder, a failed service call, a bad archive). *)
Inductive exn : Type := FileNotFoundError | ValueError | OtherError.

Inductive outcome (A : Type) : Type :=
| Ret (a : A)
| Raise (e : exn).
Arguments Ret {A} a.
Arguments Raise {A} e.

(** Computations on a world [W] that return or raise; the world survives an
    exception. *)
Definition M (W A : Type) : Type := W → outcome A * W.

Definition raise {W A} (e : exn) : M W A := λ w, (Raise e, w).

(** [x ← c; k] and [c;; k] are stdpp's notations for the bind below. *)
#[global] Instance M_ret {W} : MRet (M W) := λ A a w, (Ret a, w).
#[global] Instance M_bind {W} : MBind (M W) := λ A B f c w,
  match c w with
  | (Ret a, w') => f a w'
  | (Raise e, w') => (Raise e, w')
  end.

(** [try: body except Exception: handler] *)
Definition try_except {W A} (body : M W A) (handler : exn → M W A) : M W A :=
  λ w, match body w with
       | (Ret a, w') => (Ret a, w')
       | (Raise e, w') => handler e w'
       end.

(** [try: body finally: cleanup]: the cleanup runs on every exit; its own
    exception, if any, replaces the result. *)
Definition try_finally {W A} (body : M W A) (cleanup : M W unit) : M W A :=
  λ w, match body w with
       | (o, w') =>
           match cleanup w' with
           | (Ret _, w'') => (o, w'')
           | (Raise e, w'') => (Raise e, w'')
           end
       end.

(** [for x in l: st = f(st, x)] *)
Fixpoint for_each {W S A} (f : S → A → M W S) (l : list A) (st : S) : M W S :=
  match l with
  | [] => mret st
  | x :: l' => st' ← f st x; for_each f l' st'
  end.

(* ===================================================================== *)
(** * [os.path] on strings (POSIX)                                        *)
(* ===================================================================== *)

Module OsPath.

Definition rfindZ (c : ascii) (p : string) : Z :=
  match Str.rfind c p with Some i => Z.of_nat i | None => (-1)%Z end.

(** The [while] loop of [genericpath._splitext]: is there a character
    other than a dot among the [n] characters of [s]? *)
Fixpoint has_non_dot (n : nat) (s : string) : bool :=
  match n, s with
  | S n', String a s' => if decide (a = "."%char) then has_non_dot n' s' else true
  | _, _ => false
  end.

(** [os.path.splitext(p)] *)
Definition splitext (p : string) : string * string :=
  let sepIndex := rfindZ "/" p in
  let dotIndex := rfindZ "." p in
  if (sepIndex <? dotIndex)%Z then
    let filenameIndex := Z.to_nat (sepIndex + 1) in
    if has_non_dot (Z.to_nat dotIndex - filenameIndex) (Str.drop filenameIndex p)
    then (Str.take (Z.to_nat dotIndex) p, Str.drop (Z.to_nat dotIndex) p)
    else (p, "")
  else (p, "").

(** [os.path.join(a, b)] *)
Definition join (a b : string) : string :=
  if Str.starts_with "/" b then b
  else if bool_decide (a = "") || Str.ends_with "/" a then a +:+ b
  else a +:+ "/" +:+ b.

End OsPath.

(* ===================================================================== *)
(** * The audio transcription adapter ([transcribe_audio])               *)
(* ===================================================================== *)

(** What the adapter sees of the outside: the files that exist, and the
    calls the speech-to-text service has received (the path of the file
    submitted, oldest first). *)
Record world : Type := World {
  files : gset string;
  stt_calls : list string
}.

(** The two external collaborators.  Both may depend on everything that
    happened before.
    - [decodes w src]: [AudioSegment.from_file(src)] followed by
      [export(dst, format="mp3")] succeeds;
    - [transcribes w p]: the text [client.audio.transcriptions.create]
      returns for the file [p], or [None] when the call raises. *)
Record services : Type := Services {
  decodes : world → string → bool;
  transcribes : world → string → option string
}.

Definition os_path_exists (p : string) : M world bool :=
  λ w, (Ret (bool_decide (p ∈ files w)), w).

Definition os_remove (p : string) : M world unit :=
  λ w, if decide (p ∈ files w)
       then (Ret (), {| files := files w ∖ {[p]}; stt_calls := stt_calls w |})
       else (Raise FileNotFoundError, w).

(** [open(p, "rb")] *)
Definition open_rb (p : string) : M world unit :=
  λ w, if decide (p ∈ files w) then (Ret (), w) else (Raise FileNotFoundError, w).

(** [AudioSegment.from_file(src)] and [audio.export(dst, format="mp3")] *)
Definition pydub_convert (sv : services) (src dst : string) : M world unit :=
  λ w, if decodes sv w src
       then (Ret (), {| files := files w ∪ {[dst]}; stt_calls := stt_calls w |})
       else (Raise OtherError, w).

(** [client.audio.transcriptions.create(model="whisper-1", file=...).text] *)
Definition transcriptions_create (sv : services) (p : string) : M world string :=
  λ w, let w' := {| files := files w; stt_calls := stt_calls w ++ [p] |} in
       match transcribes sv w p with
       | Some text => (Ret text, w')
       | None => (Raise OtherError, w')
       end.

Definition conversion_error : string := "[Fehler bei der Konvertierung]".
Definition transcription_error : string := "[Fehler bei der Transkription]".

(** [transcribe_audio(audio_path)].  The first step ends either with the
    [return] of the [except] branch ([inr]) or with [path_to_transcribe] and
    [temp_file_to_clean] ([inl]).  The [print] calls are left out. *)
Definition transcribe_audio (sv : services) (audio_path : string) : M world string :=
  let file_extension := Str.lower (snd (OsPath.splitext audio_path)) in
  prepared ←
    (if decide (file_extension = ".opus") then
       try_except
         (let temp_mp3_path := fst (OsPath.splitext audio_path) +:+ ".mp3" in
          pydub_convert sv audio_path temp_mp3_path;;
          mret (inl (temp_mp3_path, Some temp_mp3_path)))
         (λ _, mret (inr conversion_error))
     else mret (inl (audio_path, None)) : M world _);
  match prepared with
  | inr sentinel => mret sentinel
  | inl (path_to_transcribe, temp_file_to_clean) =>
      try_finally
        (try_except
           (open_rb path_to_transcribe;;
            transcriptions_create sv path_to_transcribe)
           (λ _, mret transcription_error))
        (match temp_file_to_clean with
         | Some tmp =>
             there ← os_path_exists tmp;
             if (there : bool) then os_remove tmp else mret ()
         | None => mret ()
         end)
  end.

(* ===================================================================== *)
(** * The media substitution pass ([build_full_transcript], second loop) *)
(* ===================================================================== *)

(** The variables of the second loop. *)
Record subst_state : Type := SubstState {
  result_lines : list string;
  audio_transcriptions : gmap string string
}.

(** [a or b] on values that are [None] or a string. *)
Definition py_or (a b : option string) : option string :=
  match a with
  | Some "" | None => b
  | Some s => Some s
  end.

(** How an f-string prints a group. *)
Definition fstr (o : option string) : string := default "None" o.

Definition emit (st : subst_state) (line : string) : subst_state :=
  {| result_lines := result_lines st ++ [line];
     audio_transcriptions := audio_transcriptions st |}.

(** One iteration of [for line in full_transcript_lines]. *)
Definition substitute_line (sv : services) (base_dir : string)
    (st : subst_state) (line : string) : M world subst_state :=
  match Re.search audio_line_pattern line with
  | Some m =>
      let metadata_part := Re.group m 1 in
      let audio_filename := py_or (Re.group m 2) (Re.group m 3) in
      match audio_filename with
      | None | Some "" => mret (emit st line)
      | Some name =>
          match audio_transcriptions st !! name with
          | Some transcribed_text =>
              mret (emit st (fstr metadata_part +:+ " [AUDIO] "
                               +:+ transcribed_text +:+ nl))
          | None =>
              let audio_path := OsPath.join base_dir name in
              transcribed_text ← transcribe_audio sv audio_path;
              mret {| result_lines :=
                        result_lines st ++
                        [fstr metadata_part +:+ " [AUDIO] "
                           +:+ transcribed_text +:+ nl];
                      audio_transcriptions :=
                        <[name := transcribed_text]> (audio_transcriptions st) |}
          end
      end
  | None => mret (emit st line)
  end.

Definition subst_init : subst_state :=
  {| result_lines := []; audio_transcriptions := ∅ |}.

Definition substitution_pass (sv : services) (base_dir : string)
    (lines : list string) : M world subst_state :=
  for_each (substitute_line sv base_dir) lines subst_init.

(** [build_full_transcript(chat_txt_path, base_dir, start_dt)], on the lines
    [file] that iterating over the opened chat file yields. *)
Definition build_full_transcript (sv : services) (file : list string)
    (base_dir : string) (start_dt : option datetime) : M world string :=
  let full_transcript_lines := retained_lines start_dt file in
  st ← substitution_pass sv base_dir full_transcript_lines;
  mret (Str.concat (result_lines st)).

(* ===================================================================== *)
(** * The archive extractor ([unzip_chat])                                *)
(* ===================================================================== *)

Module Fs.

(** A file system tree.  A path is the list of its components, from the
    root; [os.path.join(root, name)] is [root ++ [name]]. *)
Inductive node : Type :=
| File
| Dir (entries : list (string * node)).

Abbreviation path := (list string).

Fixpoint entry (name : string) (es : list (string * node)) : option node :=
  match es with
  | [] => None
  | (n, c) :: es' => if decide (n = name) then Some c else entry name es'
  end.

Fixpoint set_entry (name : string) (c : node) (es : list (string * node))
  : list (string * node) :=
  match es with
  | [] => [(name, c)]
  | (n, c') :: es' =>
      if decide (n = name) then (n, c) :: es' else (n, c') :: set_entry name c es'
  end.

Fixpoint lookup (p : path) (n : node) : option node :=
  match p with
  | [] => Some n
  | name :: p' =>
      match n with
      | File => None
      | Dir es => c ← entry name es; lookup p' c
      end
  end.

Definition is_dir (n : node) : bool :=
  match n with Dir _ => true | File => false end.

(** [os.path.exists(p)]: true for a directory as for a regular file. *)
Definition exists_ (p : path) (root : node) : bool :=
  bool_decide (is_Some (lookup p root)).

(** [os.makedirs(p, exist_ok=True)]; [None] when a component of [p] is a
    regular file ([FileExistsError], [NotADirectoryError]). *)
Fixpoint makedirs (p : path) (n : node) : option node :=
  match p with
  | [] => match n with Dir _ => Some n | File => None end
  | name :: p' =>
      match n with
      | File => None
      | Dir es =>
          c ← makedirs p' (default (Dir []) (entry name es));
          Some (Dir (set_entry name c es))
      end
  end.

Definition dirnames (es : list (string * node)) : list string :=
  fst <$> filter (λ e, is_dir (snd e) = true) es.
Definition filenames (es : list (string * node)) : list string :=
  fst <$> filter (λ e, is_dir (snd e) = false) es.

(** The regular files of the tree [n] found at [top], by path. *)
Fixpoint file_paths (top : path) (n : node) : list path :=
  match n with
  | File => [top]
  | Dir es =>
      (fix below (l : list (string * node)) :=
         match l with
         | [] => []
         | (name, c) :: l' => file_paths (top ++ [name]) c ++ below l'
         end) es
  end.

(** [os.walk(top)], top-down: the triples [(root, dirs, files)] of the
    directory [n] found at [top] and of every directory below it.  A [top]
    that is no directory yields nothing. *)
Fixpoint walk (top : path) (n : node) : list (path * list string * list string) :=
  match n with
  | File => []
  | Dir es =>
      (top, dirnames es, filenames es) ::
      (fix below (l : list (string * node)) :=
         match l with
         | [] => []
         | (name, c) :: l' => walk (top ++ [name]) c ++ below l'
         end) es
  end.

Definition walk_at (top : path) (root : node)
  : list (path * list string * list string) :=
  match lookup top root with
  | Some n => walk top n
  | None => []
  end.

End Fs.

Definition ZIP_FILE : Fs.path := ["chat.zip"].
Definition EXTRACT_DIR : Fs.path := ["extracted_chat"].
Definition CHAT_FILE_NAME : string := "_chat.txt".

(** [zipfile.ZipFile(zip_path, 'r').extractall(extract_to)]: the library
    call, a parameter of the extractor.  It changes the tree or raises. *)
Definition extractor : Type := Fs.path → Fs.path → M Fs.node unit.

Definition os_makedirs (p : Fs.path) : M Fs.node unit :=
  λ root, match Fs.makedirs p root with
          | Some root' => (Ret (), root')
          | None => (Raise OtherError, root)
          end.

(** The [for root, _, files in os.walk(extract_to)] loop: the first
    directory that has the chat file among its files. *)
Fixpoint find_chat (triples : list (Fs.path * list string * list string))
  : option Fs.path :=
  match triples with
  | [] => None
  | (root, _, files) :: rest =>
      if decide (CHAT_FILE_NAME ∈ files) then Some (root ++ [CHAT_FILE_NAME])
      else find_chat rest
  end.

(** [unzip_chat(zip_path, extract_to)] *)
Definition unzip_chat (extractall : extractor) (zip_path extract_to : Fs.path)
  : M Fs.node Fs.path :=
  λ root,
    if negb (Fs.exists_ zip_path root) then (Raise FileNotFoundError, root)
    else
      (os_makedirs extract_to;;
       extractall zip_path extract_to;;
       (λ root',
          let chat_txt_path := extract_to ++ [CHAT_FILE_NAME] in
          if negb (Fs.exists_ chat_txt_path root') then
            match find_chat (Fs.walk_at extract_to root') with
            | Some found => (Ret found, root')
            | None => (Raise FileNotFoundError, root')
            end
          else (Ret chat_txt_path, root')) : M Fs.node Fs.path) root.

Module Zip.

(** An archive member: its name, as path components, and whether it is a
    directory entry. *)
Record member : Type := Member { name : Fs.path; is_dir : bool }.

(** Writing one member below [dest]: the missing parent directories are
    made; a directory entry makes a directory, another entry a regular
    file, replacing a regular file of that name.  [None] where the library
    raises (a regular file in the way of a directory, or a directory in
    the way of a file). *)
Fixpoint write (p : Fs.path) (dir : bool) (n : Fs.node) : option Fs.node :=
  match p with
  | [] =>
      match n with
      | Fs.Dir _ => if dir then Some n else None
      | Fs.File => if dir then None else Some Fs.File
      end
  | name :: p' =>
      match n with
      | Fs.File => None
      | Fs.Dir es =>
          let old := default (match p' with
                              | [] => if dir then Fs.Dir [] else Fs.File
                              | _ => Fs.Dir []
                              end) (Fs.entry name es) in
          c ← write p' dir old;
          Some (Fs.Dir (Fs.set_entry name c es))
      end
  end.

Fixpoint write_all (dest : Fs.path) (ms : list member) (n : Fs.node)
  : option Fs.node :=
  match ms with
  | [] => Some n
  | m :: ms' => n' ← write (dest ++ name m) (is_dir m) n; write_all dest ms' n'
  end.

(** An extractor for an archive with the members [ms]. *)
Definition extractall (ms : list member) : extractor :=
  λ _ dest root,
    match write_all dest ms root with
    | Some root' => (Ret (), root')
    | None => (Raise OtherError, root)
    end.

End Zip.

(* ===================================================================== *)
(** * Vocabulary of the statements                                        *)
(* ===================================================================== *)

(** The blocks a file is cut into, written as a recursion over the lines:
    [cur] and [d] are the block being collected and its date.  This is the
    reference the loop is proved against ([flush_fold]); it does not depend
    on the cutoff. *)
Fixpoint split_blocks (cur : list string) (d : option datetime)
    (file : list string) : list block :=
  match file with
  | [] => match cur with [] => [] | _ => [Block cur d] end
  | line :: rest =>
      match date_match line with
      | Some date_str =>
          match cur with [] => [] | _ => [Block cur d] end ++
          split_blocks [line] (parse_block_date date_str) rest
      | None => split_blocks (cur ++ [line]) d rest
      end
  end.

(** The decision of the program on a closed block. *)
Definition kept (start_dt : option datetime) (b : block) : bool :=
  retain start_dt (blk_lines b) (blk_date b).

(** The first line of [l] is a header line. *)
Definition starts_headed (l : list string) : bool :=
  match l with
  | h :: _ => is_header h
  | [] => false
  end.

(** The first line of [l] is a line that is no header line. *)
Definition starts_plain (l : list string) : bool :=
  match l with
  | h :: _ => negb (is_header h)
  | [] => false
  end.

(** The lines of [l] up to its first header line, and the rest. *)
Fixpoint plain_run (l : list string) : list string :=
  match l with
  | x :: l' => if is_header x then [] else x :: plain_run l'
  | [] => []
  end.

Fixpoint drop_plain (l : list string) : list string :=
  match l with
  | x :: l' => if is_header x then l else drop_plain l'
  | [] => []
  end.

Definition count_headers (l : list string) : nat :=
  length (filter (λ x, is_header x = true) l).

(** The date of a block is the date its first line gives: the parsed date of
    a header line, nothing for another line (and nothing before any line). *)
Definition dated (lines : list string) (d : option datetime) : Prop :=
  match lines with
  | [] => d = None
  | h :: _ =>
      match date_match h with
      | Some date_str => d = parse_block_date date_str
      | None => d = None
      end
  end.

(** Where block [i] starts in the file. *)
Definition block_offset (bs : list block) (i : nat) : nat :=
  length (concat (blk_lines <$> take i bs)).

Definition decide_block (start_dt : option datetime) (b : block) : block * bool :=
  (b, kept start_dt b).

(** The block being collected, as the list of the blocks it would close to. *)
Definition pending (cur : list string) (d : option datetime) : list block :=
  match cur with [] => [] | _ => [Block cur d] end.

(** No line of [l] after the first is a header line. *)
Definition plain_tail (l : list string) : Prop :=
  Forall (λ x, is_header x = false) (tail l).

#[global] Instance datetime_eq_dec : EqDecision datetime.
Proof. solve_decision. Defined.
#[global] Instance block_eq_dec : EqDecision block.
Proof. solve_decision. Defined.

(** ** The properties as the specification words them *)

(** "Every retained block either has null date or a date ≥ D; every
    discarded block has non-null date < D"; a block with a null date "is
    always retained regardless of cutoff". *)
Definition retention_as_specified (file : list string) (D : datetime) : Prop :=
  (∀ b, b ∈ retained_blocks (Some D) file →
        blk_date b = None ∨ ∃ d, blk_date b = Some d ∧ Datetime.ge d D = true) ∧
  (∀ b, b ∈ discarded_blocks (Some D) file →
        ∃ d, blk_date b = Some d ∧ Datetime.lt d D = true) ∧
  (∀ b, b ∈ blocks file → blk_date b = None → b ∈ retained_blocks (Some D) file).

(** "A file with no matching header line anywhere yields zero blocks";
    "content appearing before the first header line is silently dropped". *)
Definition leading_lines_dropped (start_dt : option datetime)
    (file : list string) : Prop :=
  (Forall (λ x, is_header x = false) file → retained_blocks start_dt file = []) ∧
  retained_lines start_dt file = retained_lines start_dt (drop_plain file).

(** "The number of retained blocks with cutoff = null equals the total
    number of header-matching lines in the file". *)
Definition retained_count_as_specified (file : list string) : Prop :=
  length (retained_blocks None file) = count_headers file.

(** "Every MessageBlock's first line matches the date-header pattern;
    continuation lines never match it"; "a block's line count equals 1 +
    (number of consecutive non-header lines following its header)". *)
Definition block_shape_as_specified (file : list string) : Prop :=
  ∀ i b, blocks file !! i = Some b →
    starts_headed (blk_lines b) = true ∧
    plain_tail (blk_lines b) ∧
    length (blk_lines b) =
      1 + length (plain_run (drop (S (block_offset (blocks file) i)) file)).

(** ** Sample inputs *)

Definition feb_1_2023 : datetime := midnight 2023 2 1.

(** A header whose date does not parse. *)
Definition file_bad_date : list string :=
  [ "[99.99.23, 10:00:00] Bob: hi" +:+ nl ].

(** A file without any header line. *)
Definition file_plain : list string := [ "hello" +:+ nl ].

(** Two messages around the cutoff, the first of two lines. *)
Definition file_two_blocks : list string :=
  [ "[31.01.23, 09:00:00] Bob: old" +:+ nl; "more" +:+ nl;
    "[02.02.23, 10:00:00] Alice: new" +:+ nl ].

(** ** What a match consists of *)

(** Every character of [s] is in the class [p]. *)
Fixpoint all_chars (p : ascii → bool) (s : string) : Prop :=
  match s with
  | "" => True
  | String a s' => p a = true ∧ all_chars p s'
  end.

(** [derives r g t g']: the text [t] is one of the ways to read [r], and
    reading it turns the groups [g] into [g'].  The matcher only ever
    answers with such a reading ([run_derives]); which one it picks, and
    whether [^] holds where it is read, is not part of this relation. *)
Inductive derives : regex → Re.groups → string → Re.groups → Prop :=
| D_bol g : derives Bol g "" g
| D_lit l g : derives (Lit l) g l g
| D_class p a g : p a = true → derives (Class p) g (String a "") g
| D_star p t g : all_chars p t → derives (LazyStar p) g t g
| D_repeat p lo hi t g :
    all_chars p t → lo ≤ String.length t ≤ lo + (hi - lo) →
    derives (Repeat p lo hi) g t g
| D_opt_some r g t g' : derives r g t g' → derives (Opt r) g t g'
| D_opt_none r g : derives (Opt r) g "" g
| D_seq r1 r2 g t1 g1 t2 g2 :
    derives r1 g t1 g1 → derives r2 g1 t2 g2 →
    derives (Seq r1 r2) g (t1 +:+ t2) g2
| D_alt_l r1 r2 g t g' : derives r1 g t g' → derives (Alt r1 r2) g t g'
| D_alt_r r1 r2 g t g' : derives r2 g t g' → derives (Alt r1 r2) g t g'
| D_group n r g t g' : derives r g t g' → derives (Group n r) g t (<[n := t]> g').

(** What it means for a matcher [f] to hand over to its continuation only
    after reading a text that [P] accepts. *)
Definition reads (f : Re.cont → Re.cont) (P : Re.groups → string → Re.groups → Prop) : Prop :=
  ∀ k pos s g m, f k pos s g = Some m →
    ∃ t s' g', s = t +:+ s' ∧ P g t g' ∧ k (pos + String.length t) s' g' = Some m.

(** The line of the specification's scenario, and the match the audio
    pattern finds in it. *)
Definition audio_line_sample : string :=
  "[01.02.23, 10:00:00] Alice: <Anhang: note.opus>".

Definition audio_match_sample : Re.groups :=
  <[0 := audio_line_sample]>
    (<[2 := "note.opus"]> (<[1 := "[01.02.23, 10:00:00] Alice:"]> ∅)).

(** ** The substitution pass *)

(** The audio reference of a line: the metadata prefix as it is printed and
    the file name, when the pattern matches and a name was captured. *)
Definition audio_reference (line : string) : option (string * string) :=
  m ← Re.search audio_line_pattern line;
  name ← py_or (Re.group m 2) (Re.group m 3);
  if decide (name = "") then None else Some (fstr (Re.group m 1), name).

(** The line the pass emits for an audio reference. *)
Definition audio_line (metadata_part transcribed_text : string) : string :=
  metadata_part +:+ " [AUDIO] " +:+ transcribed_text +:+ nl.

(** The file names, in order, for which the pass has to ask the adapter,
    given the names [seen] that are in the cache already. *)
Fixpoint cache_misses (seen : gset string) (lines : list string) : list string :=
  match lines with
  | [] => []
  | line :: rest =>
      match audio_reference line with
      | Some (_, name) =>
          if decide (name ∈ seen) then cache_misses seen rest
          else name :: cache_misses ({[name]} ∪ seen) rest
      | None => cache_misses seen rest
      end
  end.

(** The world after one run of the adapter for the file [name]. *)
Definition after_adapter (sv : services) (base_dir : string)
    (w : world) (name : string) : world :=
  snd (transcribe_audio sv (OsPath.join base_dir name) w).

(** Every text in the cache is what a run of the adapter returned for the
    file of that name. *)
Definition from_adapter (sv : services) (base_dir : string)
    (cache : gmap string string) : Prop :=
  ∀ name text, cache !! name = Some text →
    ∃ w0, fst (transcribe_audio sv (OsPath.join base_dir name) w0) = Ret text.

(** ** Sample services and worlds *)

(** Decoder and service at work; the service hears "Hello". *)
Definition sv_hello : services :=
  {| decodes := λ _ _, true; transcribes := λ _ _, Some "Hello" |}.

(** No decoder, no service. *)
Definition sv_down : services :=
  {| decodes := λ _ _, false; transcribes := λ _ _, None |}.

(** The decoder works, the service does not. *)
Definition sv_mute : services :=
  {| decodes := λ _ _, true; transcribes := λ _ _, None |}.

Definition world_sample : world :=
  {| files := {[ "extracted_chat/note.opus"; "extracted_chat/voice.ogg" ]};
     stt_calls := [] |}.

(** Two voice notes of one file, and a line of text between them. *)
Definition file_same_audio_twice : list string :=
  [ "[01.02.23, 10:00:00] Alice: <Anhang: note.opus>" +:+ nl;
    "[01.02.23, 10:01:00] Bob: listen to this" +:+ nl;
    "[01.02.23, 10:02:00] Bob: <Anhang: note.opus>" +:+ nl ].

(** ** The archive extractor *)

(** [os.walk] and the regular files below the entries [es] of the
    directory [top]. *)
Definition walk_below (top : Fs.path) (es : list (string * Fs.node))
  : list (Fs.path * list string * list string) :=
  flat_map (λ e, Fs.walk (top ++ [fst e]) (snd e)) es.

Definition file_paths_below (top : Fs.path) (es : list (string * Fs.node))
  : list Fs.path :=
  flat_map (λ e, Fs.file_paths (top ++ [fst e]) (snd e)) es.

(** The regular files named [_chat.txt] in the directory at [top], at any
    depth. *)
Definition chat_files (top : Fs.path) (root : Fs.node) : list Fs.path :=
  match Fs.lookup top root with
  | Some (Fs.Dir es) =>
      filter (λ p, last p = Some CHAT_FILE_NAME) (file_paths_below top es)
  | _ => []
  end.

(** A disk with the uploaded archive and nothing else. *)
Definition disk_sample : Fs.node := Fs.Dir [("chat.zip", Fs.File)].

(** An export in a folder, with a voice note. *)
Definition archive_nested : list Zip.member :=
  [ Zip.Member ["WhatsApp Chat"; "_chat.txt"] false;
    Zip.Member ["WhatsApp Chat"; "note.opus"] false ].

(** An archive in which [_chat.txt] is a folder. *)
Definition archive_chat_folder : list Zip.member :=
  [ Zip.Member ["_chat.txt"; "inner.txt"] false ].

(** An archive in which a folder named [_chat.txt] lies in another folder. *)
Definition archive_chat_folder_nested : list Zip.member :=
  [ Zip.Member ["WhatsApp Chat"; "_chat.txt"; "inner.txt"] false ].

(** An archive with the folder [_chat.txt] and, deeper, the chat file. *)
Definition archive_chat_folder_and_file : list Zip.member :=
  [ Zip.Member ["_chat.txt"; "inner.txt"] false;
    Zip.Member ["WhatsApp Chat"; "_chat.txt"] false ].

(** What the search below a directory finds is a regular file named
    [_chat.txt]; it finds none only if there is none, at any depth. *)
Definition search_correct (n : Fs.node) : Prop :=
  ∀ top es, n = Fs.Dir es →
    match find_chat (Fs.walk top n) with
    | Some p => p ∈ file_paths_below top es ∧ last p = Some CHAT_FILE_NAME
    | None => ∀ p, p ∈ file_paths_below top es → last p ≠ Some CHAT_FILE_NAME
    end.

(* ===================================================================== *)
(** * Further vocabulary                                                  *)
(* ===================================================================== *)

(** A block as a header line makes it: the header line, lines that are no
    header lines, and the date the header line gives. *)
Definition headed_block (b : block) : Prop :=
  ∃ h t date_str,
    blk_lines b = h :: t ∧ date_match h = Some date_str ∧
    Forall (λ x, is_header x = false) t ∧
    blk_date b = parse_block_date date_str.

(** The time of day of a [datetime] is midnight. *)
Definition at_midnight (d : datetime) : Prop :=
  Datetime.hour d = 0%Z ∧ Datetime.minute d = 0%Z ∧
  Datetime.second d = 0%Z ∧ Datetime.microsecond d = 0%Z.

(** Two [datetime]s of the same day. *)
Definition same_day (a b : datetime) : Prop :=
  Datetime.year a = Datetime.year b ∧ Datetime.month a = Datetime.month b ∧
  Datetime.day a = Datetime.day b.

(** The fields of the time of day are not negative. *)
Definition time_fields_ok (d : datetime) : Prop :=
  (0 ≤ Datetime.hour d ∧ 0 ≤ Datetime.minute d ∧
   0 ≤ Datetime.second d ∧ 0 ≤ Datetime.microsecond d)%Z.

(** 2 February 2023, at ten in the morning. *)
Definition feb_2_2023_10h : datetime := Datetime.mk 2023 2 2 10 0 0 0.

(** A chat without voice notes. *)
Definition file_text_only : list string :=
  [ "[01.02.23, 10:00:00] Alice: see you at eight" +:+ nl;
    "bring the tickets" +:+ nl;
    "[01.02.23, 10:05:00] Bob: ok <Anhang: photo.jpg>" +:+ nl ].

(** A voice note that names a file outside the chat's folder. *)
Definition audio_line_absolute : string :=
  "[01.02.23, 10:00:00] Eve: <Anhang: /home/alice/private.ogg>" +:+ nl.

Definition world_with_private_file : world :=
  {| files := {[ "/home/alice/private.ogg" ]}; stt_calls := [] |}.

(** The disk after [archive_nested] went into [extracted_chat]. *)
Definition disk_nested_extracted : Fs.node :=
  Fs.Dir
    [ ("chat.zip", Fs.File);
      ("extracted_chat",
       Fs.Dir [ ("WhatsApp Chat",
                 Fs.Dir [ ("_chat.txt", Fs.File); ("note.opus", Fs.File) ]) ]) ].


(* ===================================================================== *)
(** * The definitions at work                                             *)
(* ===================================================================== *)

Example strptime_ex1 : parse_block_date "01.02.23" = Some (midnight 2023 2 1).
Proof. vm_compute. reflexivity. Qed.
Example strptime_ex2 : parse_block_date "99.99.23" = None.
Proof. vm_compute. reflexivity. Qed.
Example strptime_ex3 : parse_block_date "29.02.2024" = Some (midnight 2024 2 29).
Proof. vm_compute. reflexivity. Qed.
Example strptime_ex4 : parse_block_date "29.02.23" = None.
Proof. vm_compute. reflexivity. Qed.
Example strptime_ex5 : parse_block_date "01.02.202" = None.
Proof. vm_compute. reflexivity. Qed.
Example strptime_ex6 : parse_block_date "31.12.69" = Some (midnight 1969 12 31).
Proof. vm_compute. reflexivity. Qed.
Example parse_ex1 :
  parse_blocks (Some (midnight 2023 2 1))
    [ "[31.01.23, 09:00:00] Bob: old" +:+ nl; "more" +:+ nl;
      "[02.02.23, 10:00:00] Alice: new" +:+ nl ]
  = ( [ "[02.02.23, 10:00:00] Alice: new" +:+ nl ],
      [ (Block [ "[31.01.23, 09:00:00] Bob: old" +:+ nl; "more" +:+ nl ]
               (Some (midnight 2023 1 31)), false);
        (Block [ "[02.02.23, 10:00:00] Alice: new" +:+ nl ]
               (Some (midnight 2023 2 2)), true) ] ).
Proof. vm_compute. reflexivity. Qed.
Example splitext_ex1 : OsPath.splitext "media/note.opus" = ("media/note", ".opus").
Proof. vm_compute. reflexivity. Qed.
Example splitext_ex2 : OsPath.splitext "media.d/.opus" = ("media.d/.opus", "").
Proof. vm_compute. reflexivity. Qed.
Example join_ex1 : OsPath.join "extracted_chat" "note.opus" = "extracted_chat/note.opus".
Proof. vm_compute. reflexivity. Qed.
Example join_ex2 : OsPath.join "extracted_chat" "/tmp/a.ogg" = "/tmp/a.ogg".
Proof. vm_compute. reflexivity. Qed.

(* ===================================================================== *)
(** * The block parser: the loop against its reference                   *)
(* ===================================================================== *)

Section BlockParser.

Implicit Types (file cur : list string) (d : option datetime)
  (start_dt : option datetime) (st : parser_state) (b : block).

Lemma flush_pending start_dt st :
  flush start_dt st =
    ( full_transcript_lines st ++
        concat (blk_lines <$> filter (λ b, kept start_dt b = true)
                  (pending (current_block st) (current_block_date st))),
      closed st ++
        (decide_block start_dt <$> pending (current_block st) (current_block_date st)) ).
Proof.
  unfold flush, pending. destruct st as [cur d full cl]; simpl.
  destruct cur as [|l cur]; simpl.
  - unfold retain. simpl. by rewrite !app_nil_r.
  - rewrite filter_cons, filter_nil. unfold decide_block, kept. simpl.
    destruct (decide (retain start_dt (l :: cur) d = true)) as [E|E];
      [|apply not_true_is_false in E]; rewrite E; simpl;
      by rewrite ?app_nil_r.
Qed.

Lemma flush_fold start_dt file : ∀ st,
  flush start_dt (fold_left (parse_line start_dt) file st) =
    ( full_transcript_lines st ++
        concat (blk_lines <$> filter (λ b, kept start_dt b = true)
                  (split_blocks (current_block st) (current_block_date st) file)),
      closed st ++
        (decide_block start_dt <$>
           split_blocks (current_block st) (current_block_date st) file) ).
Proof.
  induction file as [|line rest IH]; intros st; simpl.
  - apply flush_pending.
  - rewrite IH. unfold parse_line.
    destruct (date_match line) as [date_str|] eqn:Hm.
    + rewrite flush_pending. simpl.
      fold (pending (current_block st) (current_block_date st)).
      rewrite filter_app, !fmap_app, concat_app, !app_assoc. done.
    + simpl. done.
Qed.

End BlockParser.

Section SplitBlocks.

Implicit Types (file cur : list string) (d : option datetime)
  (start_dt : option datetime) (b : block).

Lemma decided_blocks_spec start_dt file :
  decided_blocks start_dt file = decide_block start_dt <$> split_blocks [] None file.
Proof. unfold decided_blocks, parse_blocks. by rewrite flush_fold. Qed.

Lemma retained_lines_spec start_dt file :
  retained_lines start_dt file =
    concat (blk_lines <$> filter (λ b, kept start_dt b = true) (split_blocks [] None file)).
Proof. unfold retained_lines, parse_blocks. by rewrite flush_fold. Qed.

Lemma blocks_spec file : blocks file = split_blocks [] None file.
Proof.
  unfold blocks. rewrite decided_blocks_spec, <- list_fmap_compose.
  apply list_fmap_id.
Qed.

Lemma decided_blocks_fst start_dt file :
  fst <$> decided_blocks start_dt file = blocks file.
Proof.
  rewrite decided_blocks_spec, blocks_spec, <- list_fmap_compose.
  apply list_fmap_id.
Qed.

Lemma filter_decided (v : bool) start_dt (bs : list block) :
  fst <$> filter (λ bk, snd bk = v) (decide_block start_dt <$> bs) =
  filter (λ b, kept start_dt b = v) bs.
Proof.
  induction bs as [|b bs IH]; [done|].
  rewrite fmap_cons, !filter_cons. unfold decide_block at 1. cbn [snd].
  destruct (decide (kept start_dt b = v)); [rewrite fmap_cons; cbn [fst]|];
    by rewrite IH.
Qed.

Lemma retained_blocks_spec start_dt file :
  retained_blocks start_dt file = filter (λ b, kept start_dt b = true) (blocks file).
Proof.
  unfold retained_blocks. by rewrite decided_blocks_spec, filter_decided, blocks_spec.
Qed.

Lemma discarded_blocks_spec start_dt file :
  discarded_blocks start_dt file = filter (λ b, kept start_dt b = false) (blocks file).
Proof.
  unfold discarded_blocks. by rewrite decided_blocks_spec, filter_decided, blocks_spec.
Qed.

(** The retained lines are the lines of the retained blocks, in order. *)
Lemma retained_lines_blocks start_dt file :
  retained_lines start_dt file = concat (blk_lines <$> retained_blocks start_dt file).
Proof. by rewrite retained_lines_spec, retained_blocks_spec, blocks_spec. Qed.

(** ** The shape of the blocks *)

Lemma pending_concat cur d : concat (blk_lines <$> pending cur d) = cur.
Proof. destruct cur; simpl; [done|]. by rewrite app_nil_r. Qed.

(** The blocks are the file, cut. *)
Lemma split_blocks_concat file : ∀ cur d,
  concat (blk_lines <$> split_blocks cur d file) = cur ++ file.
Proof.
  induction file as [|line rest IH]; intros cur d; simpl.
  - fold (pending cur d). by rewrite pending_concat, app_nil_r.
  - destruct (date_match line).
    + fold (pending cur d).
      by rewrite fmap_app, concat_app, pending_concat, IH.
    + by rewrite IH, <- app_assoc.
Qed.

Lemma pending_nonempty cur d : Forall (λ b, blk_lines b ≠ []) (pending cur d).
Proof. destruct cur; simpl; repeat constructor; done. Qed.

Lemma split_blocks_nonempty file : ∀ cur d,
  Forall (λ b, blk_lines b ≠ []) (split_blocks cur d file).
Proof.
  induction file as [|line rest IH]; intros cur d; simpl.
  - apply pending_nonempty.
  - destruct (date_match line); [|apply IH].
    apply Forall_app. split; [apply pending_nonempty|apply IH].
Qed.

Lemma is_header_true line : is_header line = true ↔ is_Some (date_match line).
Proof. unfold is_header. apply bool_decide_eq_true. Qed.

Lemma is_header_false line : is_header line = false ↔ date_match line = None.
Proof.
  unfold is_header. rewrite bool_decide_eq_false, <- eq_None_not_Some. done.
Qed.

Lemma plain_tail_snoc cur line :
  cur ≠ [] → plain_tail cur → is_header line = false → plain_tail (cur ++ [line]).
Proof.
  unfold plain_tail. destruct cur as [|c cur]; [done|]. simpl. intros _ H1 H2.
  apply Forall_app. split; [done|]. by constructor.
Qed.

(** Only the first line of a block can be a header line. *)
Lemma split_blocks_plain_tail file : ∀ cur d,
  Forall (λ x, is_header x = false) (tail cur) →
  Forall (λ b, plain_tail (blk_lines b)) (split_blocks cur d file).
Proof.
  induction file as [|line rest IH]; intros cur d Hcur; simpl.
  - destruct cur; simpl; repeat constructor; done.
  - destruct (date_match line) eqn:Hm.
    + apply Forall_app. split.
      * destruct cur; simpl; repeat constructor; done.
      * apply IH. simpl. constructor.
    + apply IH. apply is_header_false in Hm.
      destruct cur as [|c cur]; simpl; [constructor|].
      apply Forall_app. split; [done|]. by constructor.
Qed.

(** Every block after the first starts with a header line; so does the
    first when the block being collected does. *)
Lemma split_blocks_headed file : ∀ cur d,
  Forall (λ b, starts_headed (blk_lines b) = true) (drop 1 (split_blocks cur d file)) ∧
  (starts_headed cur = true →
   Forall (λ b, starts_headed (blk_lines b) = true) (split_blocks cur d file)).
Proof.
  induction file as [|line rest IH]; intros cur d; simpl.
  - destruct cur as [|c cur]; simpl; (split; [constructor|]); [done|].
    intros Hc. by repeat constructor.
  - destruct (date_match line) as [ds|] eqn:Hm.
    + assert (Hl : starts_headed [line] = true).
      { simpl. apply is_header_true. by rewrite Hm. }
      destruct (IH [line] (parse_block_date ds)) as [_ IH2]. specialize (IH2 Hl).
      destruct cur as [|c cur]; simpl.
      * split; [|done]. destruct (split_blocks _ _ _); simpl; [constructor|].
        by inversion IH2.
      * split; [done|]. intros Hc. by constructor.
    + destruct (IH (cur ++ [line]) d) as [IH1 IH2]. split; [done|].
      intros Hc. apply IH2. by destruct cur.
Qed.

(** The date of every block is the one its first line gives. *)
Lemma split_blocks_dated file : ∀ cur d,
  dated cur d →
  Forall (λ b, dated (blk_lines b) (blk_date b)) (split_blocks cur d file).
Proof.
  induction file as [|line rest IH]; intros cur d Hd; simpl.
  - destruct cur; simpl; repeat constructor; done.
  - destruct (date_match line) as [ds|] eqn:Hm.
    + apply Forall_app. split.
      * destruct cur; simpl; repeat constructor; done.
      * apply IH. simpl. by rewrite Hm.
    + apply IH. destruct cur as [|c cur]; simpl; [|done].
      simpl in Hd. by rewrite Hm.
Qed.

Lemma split_blocks_length file : ∀ cur d,
  length (split_blocks cur d file) =
    count_headers file +
    (if bool_decide (cur ≠ []) || starts_plain file then 1 else 0).
Proof.
  unfold count_headers.
  induction file as [|line rest IH]; intros cur d; simpl.
  - destruct cur; simpl; done.
  - destruct (date_match line) as [ds|] eqn:Hm.
    + assert (Hh : is_header line = true) by (apply is_header_true; by rewrite Hm).
      rewrite filter_cons_True by done. rewrite Hh. simpl.
      rewrite length_app, IH. simpl.
      destruct cur; simpl; rewrite ?orb_false_r; lia.
    + assert (Hh : is_header line = false) by (by apply is_header_false).
      rewrite filter_cons_False by congruence. rewrite Hh. simpl.
      rewrite IH. rewrite orb_true_r.
      rewrite (bool_decide_eq_true_2 (cur ++ [line] ≠ [])); [simpl; lia|].
      by destruct cur.
Qed.

End SplitBlocks.

(* ===================================================================== *)
(** * The block parser: retention, leading lines, counts, shape          *)
(* ===================================================================== *)

Lemma lex_le_false (a : list Z) : ∀ b,
  Datetime.lex_le b a = false → Datetime.lex_le a b = true ∧ a ≠ b.
Proof.
  induction a as [|x a IH]; intros [|y b]; simpl; try done.
  destruct (y <? x)%Z eqn:Hyx; [done|].
  destruct (x <? y)%Z eqn:Hxy.
  - intros _. split; [done|]. intros [= -> _]. lia.
  - intros Hba. destruct (IH b Hba) as [Hab Hne]. split; [done|]. congruence.
Qed.

(** [Datetime.lt] is the strict order of [Datetime.ge]. *)
Lemma datetime_lt_strict (a b : datetime) :
  Datetime.lt a b = true → Datetime.ge b a = true ∧ a ≠ b.
Proof.
  unfold Datetime.lt, Datetime.ge. intros H%negb_true_iff.
  apply lex_le_false in H as [H Hne]. split; [done|]. congruence.
Qed.

Section Retention.

Implicit Types (file : list string) (D : datetime) (b : block).

Lemma kept_cutoff D b :
  kept (Some D) b = true ↔
  blk_lines b ≠ [] ∧ ∃ d, blk_date b = Some d ∧ Datetime.ge d D = true.
Proof.
  unfold kept, retain. rewrite andb_true_iff, bool_decide_eq_true.
  destruct (blk_date b) as [d|]; split; intros [H1 H2]; split; try done.
  - by exists d.
  - destruct H2 as (d' & [= <-] & H2). done.
  - by destruct H2 as (d' & ? & _).
Qed.

Lemma kept_no_cutoff b : blk_lines b ≠ [] → kept None b = true.
Proof.
  intros H. unfold kept, retain. by rewrite bool_decide_eq_true_2.
Qed.

Lemma blocks_nonempty file b : b ∈ blocks file → blk_lines b ≠ [].
Proof.
  rewrite blocks_spec. intros Hb.
  by eapply (proj1 (Forall_forall _ _) (split_blocks_nonempty file [] None)).
Qed.

Lemma blocks_dated file b : b ∈ blocks file → dated (blk_lines b) (blk_date b).
Proof.
  rewrite blocks_spec. intros Hb.
  by eapply (proj1 (Forall_forall _ _) (split_blocks_dated file [] None eq_refl)).
Qed.

(** C1, as the program has it: under a cutoff [D] a block is retained
    exactly when its date is known and not before [D].  So every retained
    block has a date ≥ [D]; every discarded block has no date or a date
    < [D]; a block without a date - the block of a header whose date did
    not parse - is discarded, whatever [D] is; and the lines handed on are
    those of the retained blocks. *)
Theorem retention_under_cutoff file D :
  (∀ b, b ∈ retained_blocks (Some D) file →
        ∃ d, blk_date b = Some d ∧ Datetime.ge d D = true) ∧
  (∀ b, b ∈ discarded_blocks (Some D) file →
        blk_date b = None ∨ ∃ d, blk_date b = Some d ∧ Datetime.lt d D = true) ∧
  (∀ b, b ∈ blocks file →
        b ∈ retained_blocks (Some D) file ∨ b ∈ discarded_blocks (Some D) file) ∧
  (∀ b, b ∈ blocks file → blk_date b = None →
        b ∈ discarded_blocks (Some D) file ∧ b ∉ retained_blocks (Some D) file) ∧
  (∀ b h date_str, b ∈ blocks file → head (blk_lines b) = Some h →
        date_match h = Some date_str → parse_block_date date_str = None →
        blk_date b = None) ∧
  retained_lines (Some D) file = concat (blk_lines <$> retained_blocks (Some D) file).
Proof.
  rewrite retained_blocks_spec, discarded_blocks_spec.
  repeat split.
  - intros b [Hk _]%list_elem_of_filter. by apply kept_cutoff in Hk as [_ Hk].
  - intros b [Hk Hb]%list_elem_of_filter.
    destruct (blk_date b) as [d|] eqn:Hd; [right|by left].
    exists d. split; [done|]. unfold Datetime.lt.
    destruct (Datetime.ge d D) eqn:Hge; [|done].
    assert (kept (Some D) b = true); [|congruence].
    apply kept_cutoff. split; [by eapply blocks_nonempty|by exists d].
  - intros b Hb. destruct (kept (Some D) b) eqn:Hk;
      [left|right]; by apply list_elem_of_filter.
  - apply list_elem_of_filter. split; [|done].
    destruct (kept (Some D) b) eqn:Hk; [|done].
    apply kept_cutoff in Hk as [_ (d & Hd & _)]. congruence.
  - intros [Hk _]%list_elem_of_filter.
    apply kept_cutoff in Hk as [_ (d & Hd & _)]. congruence.
  - intros b h date_str Hb Hh Hm Hp. apply blocks_dated in Hb.
    destruct (blk_lines b) as [|h' t]; [done|]. simpl in Hh. injection Hh as ->.
    simpl in Hb. rewrite Hm in Hb. congruence.
  - rewrite <- retained_blocks_spec. apply retained_lines_blocks.
Qed.

End Retention.

Section Shape.

Implicit Types (file : list string) (D : datetime) (b : block).

Lemma plain_run_app t rest :
  Forall (λ x, is_header x = false) t →
  rest = [] ∨ starts_headed rest = true →
  plain_run (t ++ rest) = t.
Proof.
  induction 1 as [|x t Hx _ IH]; intros Hrest; simpl.
  - destruct Hrest as [->|Hrest]; [done|].
    destruct rest as [|r rest]; [done|]. simpl in *. by rewrite Hrest.
  - rewrite Hx. f_equal. by apply IH.
Qed.

Lemma headed_concat (l : list block) :
  Forall (λ b, starts_headed (blk_lines b) = true) l →
  concat (blk_lines <$> l) = [] ∨ starts_headed (concat (blk_lines <$> l)) = true.
Proof.
  destruct 1 as [|b l Hb _]; [by left|right]. simpl.
  by destruct (blk_lines b).
Qed.

Lemma drop_plain_split file : file = plain_run file ++ drop_plain file.
Proof.
  induction file as [|x file IH]; [done|]. simpl.
  destruct (is_header x); [done|]. simpl. by f_equal.
Qed.

Lemma plain_run_plain file : Forall (λ x, is_header x = false) (plain_run file).
Proof.
  induction file as [|x file IH]; simpl; [constructor|].
  destruct (is_header x) eqn:E; by constructor.
Qed.

Lemma drop_plain_headed file : drop_plain file = [] ∨ starts_headed (drop_plain file) = true.
Proof.
  induction file as [|x file IH]; simpl; [by left|].
  destruct (is_header x) eqn:E; [right; simpl; done|done].
Qed.

(** Reading lines that are no header lines only grows the block being
    collected. *)
Lemma split_blocks_plain_prefix pre : ∀ cur d file,
  Forall (λ x, is_header x = false) pre →
  split_blocks cur d (pre ++ file) = split_blocks (cur ++ pre) d file.
Proof.
  induction pre as [|x pre IH]; intros cur d file Hpre; simpl.
  - by rewrite app_nil_r.
  - inversion Hpre as [|? ? Hx Hpre']; subst.
    apply is_header_false in Hx. rewrite Hx.
    rewrite IH by done. by rewrite <- app_assoc.
Qed.

(** A block without a date that is being collected when a header line (or
    the end of the file) comes is not retained under a cutoff. *)
Lemma split_blocks_undated_start D cur file :
  file = [] ∨ starts_headed file = true →
  filter (λ b, kept (Some D) b = true) (split_blocks cur None file) =
  filter (λ b, kept (Some D) b = true) (split_blocks [] None file).
Proof.
  intros [->|Hh].
  - simpl. destruct cur; [done|]. by rewrite filter_cons_False.
  - destruct file as [|x file]; [done|]. simpl in *.
    apply is_header_true in Hh as [ds Hds]. rewrite Hds.
    destruct cur; [done|]. simpl. by rewrite filter_cons_False.
Qed.

Lemma retained_none file : retained_blocks None file = blocks file.
Proof.
  rewrite retained_blocks_spec.
  assert (H : Forall (λ b, kept None b = true) (blocks file)).
  { apply Forall_forall. intros b Hb. by apply kept_no_cutoff, (blocks_nonempty file). }
  induction H as [|b l Hb _ IH]; [done|]. by rewrite filter_cons_True, IH.
Qed.

(** C2, as the program has it: under a cutoff the lines before the first
    header line are dropped - the result is that of the file without them,
    and a file without a header line gives no block and no line.  Without
    a cutoff they are kept: every line of the file is handed on. *)
Theorem leading_lines_under_cutoff file :
  (∀ D, leading_lines_dropped (Some D) file) ∧
  (∀ D, Forall (λ x, is_header x = false) file → retained_lines (Some D) file = []) ∧
  retained_lines None file = file.
Proof.
  assert (Hdrop : ∀ D,
    filter (λ b, kept (Some D) b = true) (split_blocks [] None file) =
    filter (λ b, kept (Some D) b = true) (split_blocks [] None (drop_plain file))).
  { intros D. rewrite (drop_plain_split file) at 1.
    rewrite split_blocks_plain_prefix by apply plain_run_plain.
    apply split_blocks_undated_start, drop_plain_headed. }
  assert (Hnone : ∀ D, Forall (λ x, is_header x = false) file →
    retained_blocks (Some D) file = []).
  { intros D Hp. rewrite retained_blocks_spec, blocks_spec, Hdrop.
    replace (drop_plain file) with (@nil string); [done|].
    clear -Hp. induction Hp as [|x l Hx _ IH]; simpl; [done|]. by rewrite Hx. }
  split; [|split].
  - intros D. split; [apply Hnone|].
    by rewrite !retained_lines_spec, Hdrop.
  - intros D Hp. by rewrite retained_lines_blocks, Hnone.
  - rewrite retained_lines_blocks, retained_none, blocks_spec.
    apply split_blocks_concat.
Qed.

(** C3, as the program has it: without a cutoff every block is retained,
    and there is one block for each header line, and one more when the
    file starts with a line that is no header line. *)
Theorem retained_count_no_cutoff file :
  retained_blocks None file = blocks file ∧
  length (retained_blocks None file) =
    count_headers file + (if starts_plain file then 1 else 0).
Proof.
  split; [apply retained_none|].
  rewrite retained_none, blocks_spec, split_blocks_length. done.
Qed.

Lemma blocks_concat file : concat (blk_lines <$> blocks file) = file.
Proof. rewrite blocks_spec. apply split_blocks_concat. Qed.

Lemma blocks_at file i b :
  blocks file !! i = Some b →
  drop (block_offset (blocks file) i) file =
    blk_lines b ++ concat (blk_lines <$> drop (S i) (blocks file)).
Proof.
  intros Hi. unfold block_offset.
  rewrite <- (blocks_concat file) at 2.
  rewrite <- (take_drop_middle _ _ _ Hi) at 2.
  rewrite fmap_app, concat_app, fmap_cons. simpl.
  by rewrite drop_app_length.
Qed.

(** C4, as the program has it.  Block [i] is the stretch of the file that
    starts at its offset; none of its lines after the first is a header
    line; unless it is the block of the lines before the first header
    line, its first line is a header line and it has one line more than
    the run of lines, after that header line, that are no header lines.
    The block of the lines before the first header line is that run. *)
Theorem block_shape file i b :
  blocks file !! i = Some b →
  let off := block_offset (blocks file) i in
  take (length (blk_lines b)) (drop off file) = blk_lines b ∧
  plain_tail (blk_lines b) ∧
  (i ≠ 0 ∨ starts_headed file = true →
     starts_headed (blk_lines b) = true ∧
     length (blk_lines b) = 1 + length (plain_run (drop (S off) file))) ∧
  (i = 0 → starts_headed file = false → blk_lines b = plain_run file).
Proof.
  intros Hi off.
  pose proof (blocks_at file i b Hi) as Hat. fold off in Hat.
  assert (Hne : blk_lines b ≠ []).
  { apply (blocks_nonempty file). by eapply list_elem_of_lookup_2. }
  assert (Hpt : plain_tail (blk_lines b)).
  { assert (Hb : b ∈ split_blocks [] None file).
    { rewrite <- blocks_spec. by eapply list_elem_of_lookup_2. }
    pose proof (split_blocks_plain_tail file [] None ltac:(constructor)) as HF.
    rewrite Forall_forall in HF. by apply HF. }
  assert (Hrest : concat (blk_lines <$> drop (S i) (blocks file)) = [] ∨
            starts_headed (concat (blk_lines <$> drop (S i) (blocks file))) = true).
  { apply headed_concat. replace (S i) with (1 + i) by done.
    rewrite <- drop_drop. apply Forall_drop. rewrite blocks_spec.
    apply split_blocks_headed. }
  split; [|split; [done|split]].
  - by rewrite Hat, take_app_length.
  - intros Hcase.
    assert (Hh : starts_headed (blk_lines b) = true).
    { destruct i as [|i].
      - destruct Hcase as [?|Hf]; [done|].
        unfold off, block_offset in Hat. simpl in Hat. rewrite drop_0 in Hat.
        destruct (blk_lines b) as [|h t]; [done|]. rewrite Hat in Hf. done.
      - assert (Hb : b ∈ drop 1 (blocks file)).
        { apply list_elem_of_lookup. exists i. by rewrite lookup_drop. }
        pose proof (proj1 (split_blocks_headed file [] None)) as HF.
        rewrite <- blocks_spec, Forall_forall in HF. by apply HF. }
    split; [done|].
    destruct (blk_lines b) as [|h t] eqn:Hb; [done|].
    replace (drop (S off) file) with
      (t ++ concat (blk_lines <$> drop (S i) (blocks file))).
    + rewrite plain_run_app; [done|exact Hpt|exact Hrest].
    + change (S off) with (1 + off). rewrite Nat.add_comm, <- drop_drop, Hat. done.
  - intros -> Hf. unfold off, block_offset in Hat. simpl in Hat.
    rewrite drop_0 in Hat.
    rewrite Hat. symmetry. apply plain_run_app; [|done].
    destruct (blk_lines b) as [|h t]; [done|].
    constructor; [|exact Hpt].
    rewrite Hat in Hf. simpl in Hf. done.
Qed.

End Shape.

(** ** The sample inputs *)

Ltac in_computed_list :=
  match goal with
  | |- ?x ∈ ?l =>
      let l' := eval vm_compute in l in
      change (x ∈ l'); repeat first [apply list_elem_of_here | apply list_elem_of_further]
  end.

(** C1 as the specification words it fails on a header whose date does not
    parse: under the cutoff 1 February 2023 the block of
    ["[99.99.23, 10:00:00] Bob: hi"] has no date and is discarded. *)
Lemma retention_as_specified_fails :
  ¬ retention_as_specified file_bad_date feb_1_2023.
Proof.
  intros (_ & Hdisc & _).
  destruct (Hdisc (Block file_bad_date None)) as (d & Hd & _).
  - in_computed_list.
  - discriminate Hd.
Qed.

Lemma retention_under_cutoff_witness :
  ( Block file_bad_date None ∈ discarded_blocks (Some feb_1_2023) file_bad_date ∧
    Block file_bad_date None ∉ retained_blocks (Some feb_1_2023) file_bad_date ) ∧
  ∃ d, Some (midnight 2023 2 2) = Some d ∧ Datetime.ge d feb_1_2023 = true.
Proof.
  split.
  - apply (proj1 (proj2 (proj2 (proj2 (retention_under_cutoff file_bad_date feb_1_2023))))).
    + in_computed_list.
    + reflexivity.
  - apply (proj1 (retention_under_cutoff file_two_blocks feb_1_2023)
             (Block [ "[02.02.23, 10:00:00] Alice: new" +:+ nl ] (Some (midnight 2023 2 2)))).
    in_computed_list.
Defined.

(** C2 as the specification words it fails without a cutoff: the one line
    of a file without a header line is retained. *)
Lemma leading_lines_dropped_fails :
  ¬ leading_lines_dropped None file_plain.
Proof.
  intros [Hnone _].
  assert (Hp : Forall (λ x, is_header x = false) file_plain).
  { repeat constructor. }
  specialize (Hnone Hp). vm_compute in Hnone. discriminate Hnone.
Qed.

Lemma leading_lines_under_cutoff_witness :
  retained_lines (Some feb_1_2023) file_plain = [] ∧
  retained_lines None file_plain = file_plain.
Proof.
  split.
  - apply (proj1 (proj2 (leading_lines_under_cutoff file_plain)) feb_1_2023).
    repeat constructor.
  - apply (proj2 (proj2 (leading_lines_under_cutoff file_plain))).
Defined.

(** C3 as the specification words it fails on a file without a header line:
    one block is retained, and no line is a header line. *)
Lemma retained_count_as_specified_fails :
  ¬ retained_count_as_specified file_plain.
Proof. unfold retained_count_as_specified. vm_compute. discriminate. Qed.

(** C4 as the specification words it fails on a file without a header line:
    the first line of its block is no header line. *)
Lemma block_shape_as_specified_fails :
  ¬ block_shape_as_specified file_plain.
Proof.
  intros H. destruct (H 0 (Block file_plain None) eq_refl) as [Hh _].
  vm_compute in Hh. discriminate Hh.
Qed.

Lemma block_shape_witness :
  starts_headed [ "[31.01.23, 09:00:00] Bob: old" +:+ nl; "more" +:+ nl ] = true ∧
  2 = 1 + length (plain_run (drop 1 file_two_blocks)).
Proof.
  apply (proj1 (proj2 (proj2
    (block_shape file_two_blocks 0
       (Block [ "[31.01.23, 09:00:00] Bob: old" +:+ nl; "more" +:+ nl ]
              (Some (midnight 2023 1 31)))
       eq_refl)))).
  right. reflexivity.
Defined.

(* ===================================================================== *)
(** * The matcher                                                         *)
(* ===================================================================== *)

Section Strings.

Implicit Types (s t u : string) (a : ascii).

Lemma str_app_nil_l s : "" +:+ s = s.
Proof. reflexivity. Qed.

Lemma str_app_cons a s t : String a s +:+ t = String a (s +:+ t).
Proof. reflexivity. Qed.

Lemma str_app_nil_r s : s +:+ "" = s.
Proof. induction s as [|a s IH]; [done|]. by rewrite str_app_cons, IH. Qed.

Lemma str_app_assoc s t u : (s +:+ t) +:+ u = s +:+ t +:+ u.
Proof. induction s as [|a s IH]; [done|]. by rewrite !str_app_cons, IH. Qed.

Lemma str_length_app s t :
  String.length (s +:+ t) = String.length s + String.length t.
Proof. induction s as [|a s IH]; [done|]. rewrite str_app_cons. simpl. by rewrite IH. Qed.

Lemma str_take_app s t : Str.take (String.length s) (s +:+ t) = s.
Proof. induction s as [|a s IH]; [by destruct t|]. rewrite str_app_cons. simpl. by rewrite IH. Qed.

Lemma strip_prefix_Some l s s' : Str.strip_prefix l s = Some s' → s = l +:+ s'.
Proof.
  revert s. induction l as [|a l IH]; intros s; simpl.
  - by intros [= ->].
  - destruct s as [|b s]; [done|]. destruct (decide (a = b)) as [->|]; [|done].
    intros H. rewrite str_app_cons. f_equal. by apply IH.
Qed.

Lemma str_app_eq_nil s t : s +:+ t = "" → s = "" ∧ t = "".
Proof. destruct s; [done|]. by rewrite str_app_cons. Qed.

End Strings.

Section Matcher.

Implicit Types (r : regex) (k : Re.cont) (s t : string) (g m : Re.groups)
  (p : ascii → bool).

Lemma lazy_star_reads p :
  reads (Re.lazy_star p) (λ g t g', all_chars p t ∧ g' = g).
Proof.
  intros k pos s. revert pos.
  induction s as [|a s IH]; intros pos g m; simpl.
  - destruct (k pos "" g) eqn:Hk; [|done]. intros [= <-].
    exists "", "", g. rewrite Nat.add_0_r. done.
  - destruct (k pos (String a s) g) eqn:Hk.
    + intros [= <-]. exists "", (String a s), g. rewrite Nat.add_0_r. done.
    + destruct (p a) eqn:Hp; [|done]. intros H.
      apply IH in H as (t & s' & g' & -> & [Ht ->] & H).
      exists (String a t), s', g. simpl.
      rewrite <- Nat.add_succ_comm. done.
Qed.

Lemma exactly_reads p n :
  reads (Re.exactly p n) (λ g t g', all_chars p t ∧ String.length t = n ∧ g' = g).
Proof.
  intros k pos s. revert pos s.
  induction n as [|n IH]; intros pos s g m; simpl.
  - intros H. exists "", s, g. rewrite Nat.add_0_r. done.
  - destruct s as [|a s]; [done|]. destruct (p a) eqn:Hp; [|done]. intros H.
    apply IH in H as (t & s' & g' & -> & (Ht & Hn & ->) & H).
    exists (String a t), s', g. simpl. rewrite <- Nat.add_succ_comm. subst n. done.
Qed.

Lemma at_most_reads p n :
  reads (Re.at_most p n) (λ g t g', all_chars p t ∧ String.length t ≤ n ∧ g' = g).
Proof.
  intros k pos s. revert pos s.
  assert (Hskip : ∀ n pos s g m, k pos s g = Some m →
    ∃ t s' g', s = t +:+ s' ∧ (all_chars p t ∧ String.length t ≤ n ∧ g' = g) ∧
               k (pos + String.length t) s' g' = Some m).
  { intros n' pos s g m H. exists "", s, g. rewrite Nat.add_0_r.
    repeat split; simpl; [lia|done]. }
  induction n as [|n IH]; intros pos s g m; simpl; [apply Hskip|].
  destruct s as [|a s]; [apply Hskip|].
  destruct (p a) eqn:Hp; [|apply Hskip].
  destruct (Re.at_most p n k (S pos) s g) eqn:Hrec; [|apply Hskip].
  intros [= <-].
  apply IH in Hrec as (t & s' & g' & -> & (Ht & Hn & ->) & H).
  exists (String a t), s', g. simpl. rewrite <- Nat.add_succ_comm.
  repeat split; [done..|lia|done].
Qed.

(** The matcher answers only with a reading of the expression: the text
    it consumed, the groups it set, and then what the continuation made of
    the rest. *)
Theorem run_derives r : reads (Re.run r) (derives r).
Proof.
  induction r as [|l|p|p|p lo hi|r IH|r1 IH1 r2 IH2|r1 IH1 r2 IH2|n r IH];
    intros k pos s g m; simpl.
  - destruct (decide (pos = 0)); [|done]. intros H.
    exists "", s, g. rewrite Nat.add_0_r. repeat split; [constructor|done].
  - destruct (Str.strip_prefix l s) as [s'|] eqn:Hl; [|done]. intros H.
    apply strip_prefix_Some in Hl as ->.
    exists l, s', g. repeat split; [constructor|done].
  - destruct s as [|a s]; [done|]. destruct (p a) eqn:Hp; [|done]. intros H.
    exists (String a ""), s, g. simpl. rewrite Nat.add_1_r.
    repeat split; [by constructor|done].
  - intros H. apply lazy_star_reads in H as (t & s' & g' & -> & [Ht ->] & H).
    exists t, s', g. repeat split; [by constructor|done].
  - intros H. apply exactly_reads in H as (t1 & s1 & g1 & -> & (Ht1 & Hn1 & ->) & H).
    apply at_most_reads in H as (t2 & s2 & g2 & -> & (Ht2 & Hn2 & ->) & H).
    exists (t1 +:+ t2), s2, g. rewrite str_app_assoc, str_length_app, Nat.add_assoc.
    repeat split; [|done]. constructor.
    + clear -Ht1 Ht2. induction t1 as [|a t1 IH]; [done|].
      rewrite str_app_cons. simpl in *. split; [apply Ht1|apply IH, Ht1].
    + rewrite str_length_app. lia.
  - destruct (Re.run r k pos s g) eqn:Hr.
    + intros [= <-]. apply IH in Hr as (t & s' & g' & -> & Hd & H).
      exists t, s', g'. repeat split; [by apply D_opt_some|done].
    + intros H. exists "", s, g. rewrite Nat.add_0_r.
      repeat split; [apply D_opt_none|done].
  - intros H. apply IH1 in H as (t1 & s1 & g1 & -> & Hd1 & H).
    apply IH2 in H as (t2 & s2 & g2 & -> & Hd2 & H).
    exists (t1 +:+ t2), s2, g2. rewrite str_app_assoc, str_length_app, Nat.add_assoc.
    repeat split; [by econstructor|done].
  - destruct (Re.run r1 k pos s g) eqn:Hr.
    + intros [= <-]. apply IH1 in Hr as (t & s' & g' & -> & Hd & H).
      exists t, s', g'. repeat split; [by apply D_alt_l|done].
    + intros H. apply IH2 in H as (t & s' & g' & -> & Hd & H).
      exists t, s', g'. repeat split; [by apply D_alt_r|done].
  - intros H. apply IH in H as (t & s' & g' & -> & Hd & H).
    exists t, s', (<[n := t]> g'). repeat split; [by constructor|].
    replace (pos + String.length t - pos) with (String.length t) in H by lia.
    by rewrite str_take_app in H.
Qed.

Lemma search_from_derives r line : ∀ pos m,
  Re.search_from r pos line = Some m →
  ∃ t g', derives r ∅ t g' ∧ m = <[0 := t]> g'.
Proof.
  induction line as [|a line IH]; intros pos m; simpl.
  - destruct (Re.run r _ pos "" ∅) eqn:Hr; [|done]. intros [= <-].
    apply (run_derives (Group 0 r)) in Hr as (t & s' & g' & _ & Hd & [= <-]).
    inversion Hd; subst. eexists _, _. split; [eassumption|reflexivity].
  - destruct (Re.run r _ pos (String a line) ∅) eqn:Hr.
    + intros [= <-].
      apply (run_derives (Group 0 r)) in Hr as (t & s' & g' & _ & Hd & [= <-]).
      inversion Hd; subst. eexists _, _. split; [eassumption|reflexivity].
    + apply IH.
Qed.

(** A successful search is a reading of the pattern somewhere in the line;
    group 0 is the text read. *)
Lemma search_derives r line m :
  Re.search r line = Some m →
  ∃ t g', derives r ∅ t g' ∧ m = <[0 := t]> g'.
Proof. apply search_from_derives. Qed.

End Matcher.

(* ===================================================================== *)
(** * The audio pattern always captures a file name                      *)
(* ===================================================================== *)

Ltac invert_derives :=
  repeat match goal with
  | H : derives (Seq _ _) _ _ _ |- _ => inversion H; subst; clear H
  | H : derives (Lit _) _ _ _ |- _ => inversion H; subst; clear H
  | H : derives (LazyStar _) _ _ _ |- _ => inversion H; subst; clear H
  | H : derives (Group _ _) _ _ _ |- _ => inversion H; subst; clear H
  | H : derives (Alt _ _) _ _ _ |- _ => inversion H; subst; clear H
  end.

Lemma audio_name_derives n g t g' :
  derives (audio_name n) g t g' →
  ∃ stem, (t = stem +:+ ".opus" ∨ t = stem +:+ ".ogg") ∧ g' = <[n := t]> g.
Proof.
  unfold audio_name, audio_ext, Re.seqs. simpl. intros H.
  invert_derives; rewrite ?str_app_nil_r; eauto.
Qed.

Lemma audio_name_nonempty stem name :
  name = stem +:+ ".opus" ∨ name = stem +:+ ".ogg" → name ≠ "".
Proof. intros [->| ->] [_ H]%str_app_eq_nil; discriminate H. Qed.

Lemma py_or_nonempty name o : name ≠ "" → py_or (Some name) o = Some name.
Proof. by destruct name. Qed.

(** The groups of a match of the audio pattern: group 1 and one of the
    groups 2 and 3, the latter with a text that ends in [.opus] or [.ogg]. *)
Lemma audio_match_shape line m :
  Re.search audio_line_pattern line = Some m →
  ∃ t meta name stem,
    (name = stem +:+ ".opus" ∨ name = stem +:+ ".ogg") ∧
    ( m = <[0 := t]> (<[2 := name]> (<[1 := meta]> ∅)) ∨
      m = <[0 := t]> (<[3 := name]> (<[1 := meta]> ∅)) ).
Proof.
  intros (t & g' & Hd & ->)%search_derives.
  unfold audio_line_pattern, Re.seqs in Hd. simpl in Hd.
  inversion Hd as [| | | | | | |? ? ? t1 g1 ? ? Hmeta Hrest| | |]; subst; clear Hd.
  inversion Hmeta as [| | | | | | | | | |? ? ? ? gm Hm]; subst; clear Hmeta.
  assert (gm = ∅) as ->.
  { clear -Hm. invert_derives. done. }
  clear Hm.
  inversion Hrest as [| | | | | | |? ? ? ? ? ? ? Hstar Halt| | |]; subst; clear Hrest.
  inversion Hstar; subst; clear Hstar.
  inversion Halt as [| | | | | | |? ? ? ? ? ? ? Halt' Hend| | |]; subst; clear Halt.
  inversion Hend; subst; clear Hend.
  inversion Halt' as [| | | | | | | |? ? ? ? ? Ha|? ? ? ? ? Hb|]; subst; clear Halt'.
  - inversion Ha as [| | | | | | |? ? ? ? ? ? ? Hl Ha'| | |]; subst; clear Ha.
    inversion Hl; subst; clear Hl.
    inversion Ha' as [| | | | | | |? ? ? ? ? ? ? Hn Hc| | |]; subst; clear Ha'.
    apply audio_name_derives in Hn as (stem & Hname & ->).
    invert_derives. eexists _, _, _, stem. split; [exact Hname|by left].
  - inversion Hb as [| | | | | | |? ? ? ? ? ? ? Hl Hb'| | |]; subst; clear Hb.
    inversion Hl; subst; clear Hl.
    inversion Hb' as [| | | | | | |? ? ? ? ? ? ? Hn Hc| | |]; subst; clear Hb'.
    apply audio_name_derives in Hn as (stem & Hname & ->).
    invert_derives. eexists _, _, _, stem. split; [exact Hname|by right].
Qed.

(** C10.  When the audio pattern matches a line, exactly one of the groups
    2 and 3 is set, to a text that ends in [.opus] or [.ogg] and so is not
    empty; group 1 is set too.  Hence [match.group(2) or match.group(3)] is
    that text, and the test [if not audio_filename] never succeeds. *)
Theorem audio_match_has_filename line m :
  Re.search audio_line_pattern line = Some m →
  ∃ meta name stem,
    Re.group m 1 = Some meta ∧
    (name = stem +:+ ".opus" ∨ name = stem +:+ ".ogg") ∧
    name ≠ "" ∧
    ( (Re.group m 2 = Some name ∧ Re.group m 3 = None) ∨
      (Re.group m 2 = None ∧ Re.group m 3 = Some name) ) ∧
    py_or (Re.group m 2) (Re.group m 3) = Some name.
Proof.
  intros (t & meta & name & stem & Hname & Hm)%audio_match_shape.
  pose proof (audio_name_nonempty _ _ Hname) as Hne.
  exists meta, name, stem. unfold Re.group.
  destruct Hm as [-> | ->].
  - split_and!; [by simplify_map_eq|exact Hname|exact Hne| |].
    + left. by simplify_map_eq.
    + simplify_map_eq. by apply py_or_nonempty.
  - split_and!; [by simplify_map_eq|exact Hname|exact Hne| |].
    + right. by simplify_map_eq.
    + by simplify_map_eq.
Qed.

Lemma audio_match_has_filename_witness :
  ∃ meta name stem,
    Re.group audio_match_sample 1 = Some meta ∧
    (name = stem +:+ ".opus" ∨ name = stem +:+ ".ogg") ∧
    name ≠ "" ∧
    ( (Re.group audio_match_sample 2 = Some name ∧ Re.group audio_match_sample 3 = None) ∨
      (Re.group audio_match_sample 2 = None ∧ Re.group audio_match_sample 3 = Some name) ) ∧
    py_or (Re.group audio_match_sample 2) (Re.group audio_match_sample 3) = Some name.
Proof.
  apply (audio_match_has_filename audio_line_sample).
  vm_compute. reflexivity.
Defined.

(* ===================================================================== *)
(** * The transcription adapter                                           *)
(* ===================================================================== *)

Section Adapter.

Context (sv : services).
Implicit Types (audio_path : string) (w : world).

Ltac run_adapter :=
  unfold transcribe_audio, try_finally, try_except, pydub_convert, open_rb,
    transcriptions_create, os_path_exists, os_remove,
    mbind, M_bind, mret, M_ret; simpl.

(** Every run of the adapter returns a text, and submits at most one file
    to the speech-to-text service. *)
Lemma transcribe_audio_returns audio_path w :
  ∃ text w' calls,
    transcribe_audio sv audio_path w = (Ret text, w') ∧
    stt_calls w' = stt_calls w ++ calls ∧ length calls ≤ 1.
Proof.
  run_adapter.
  destruct (decide (Str.lower (OsPath.splitext audio_path).2 = ".opus")) as [He|He].
  - destruct (decodes sv w audio_path) eqn:Hdec; simpl.
    + rewrite decide_True by set_solver. simpl.
      destruct (transcribes sv _ _) as [text|]; simpl;
        rewrite bool_decide_eq_true_2 by set_solver;
        rewrite decide_True by set_solver;
        eexists _, _, [_]; simpl; split_and!; (reflexivity || lia).
    + eexists _, _, []. rewrite app_nil_r. split_and!; (reflexivity || simpl; lia).
  - simpl. destruct (decide (audio_path ∈ files w)); simpl.
    + destruct (transcribes sv w audio_path) as [text|]; simpl;
        eexists _, _, [_]; simpl; split_and!; (reflexivity || lia).
    + eexists _, _, []. rewrite app_nil_r. split_and!; (reflexivity || simpl; lia).
Qed.

(** C8.  If the file needs converting and the conversion fails, the
    adapter returns the conversion sentinel and leaves the world as it
    was: the speech-to-text service is not called.  If the conversion
    succeeded or was not needed and the call for the file to transcribe
    fails - the file cannot be opened, or the service raises - it returns
    the transcription sentinel, a different text.  The adapter never
    raises. *)
Theorem transcribe_audio_failures audio_path w :
  let file_extension := Str.lower (snd (OsPath.splitext audio_path)) in
  let temp_mp3_path := fst (OsPath.splitext audio_path) +:+ ".mp3" in
  ( file_extension = ".opus" → decodes sv w audio_path = false →
    transcribe_audio sv audio_path w = (Ret conversion_error, w) ) ∧
  ( file_extension = ".opus" → decodes sv w audio_path = true →
    transcribes sv {| files := files w ∪ {[temp_mp3_path]};
                      stt_calls := stt_calls w |} temp_mp3_path = None →
    fst (transcribe_audio sv audio_path w) = Ret transcription_error ) ∧
  ( file_extension ≠ ".opus" →
    audio_path ∉ files w ∨ transcribes sv w audio_path = None →
    fst (transcribe_audio sv audio_path w) = Ret transcription_error ) ∧
  conversion_error ≠ transcription_error ∧
  ( ∃ text w', transcribe_audio sv audio_path w = (Ret text, w') ).
Proof.
  intros file_extension temp_mp3_path. split_and!.
  - intros He Hdec. run_adapter. fold file_extension.
    rewrite decide_True by done. by rewrite Hdec.
  - intros He Hdec Hstt. run_adapter. fold file_extension.
    rewrite decide_True by done. rewrite Hdec. simpl.
    rewrite decide_True by set_solver. simpl.
    fold temp_mp3_path. rewrite Hstt. simpl.
    rewrite bool_decide_eq_true_2 by set_solver.
    by rewrite decide_True by set_solver.
  - intros He Hfail. run_adapter. fold file_extension.
    rewrite decide_False by done. simpl.
    destruct (decide (audio_path ∈ files w)) as [Hin|Hin]; simpl; [|done].
    destruct Hfail as [?|Hstt]; [done|]. by rewrite Hstt.
  - done.
  - destruct (transcribe_audio_returns audio_path w) as (text & w' & _ & H & _).
    eauto.
Qed.

End Adapter.

Lemma transcribe_audio_failures_witness :
  transcribe_audio sv_down "extracted_chat/note.opus" world_sample
    = (Ret conversion_error, world_sample) ∧
  fst (transcribe_audio sv_mute "extracted_chat/note.opus" world_sample)
    = Ret transcription_error ∧
  fst (transcribe_audio sv_hello "extracted_chat/gone.ogg" world_sample)
    = Ret transcription_error.
Proof.
  split_and!.
  - apply (proj1 (transcribe_audio_failures sv_down "extracted_chat/note.opus" world_sample));
      reflexivity.
  - apply (proj1 (proj2 (transcribe_audio_failures sv_mute "extracted_chat/note.opus" world_sample)));
      reflexivity.
  - apply (proj1 (proj2 (proj2
      (transcribe_audio_failures sv_hello "extracted_chat/gone.ogg" world_sample)))).
    + vm_compute. discriminate.
    + left. vm_compute. discriminate.
Defined.

(* ===================================================================== *)
(** * The media substitution pass                                         *)
(* ===================================================================== *)

Section Substitution.

Context (sv : services) (base_dir : string).
Implicit Types (st : subst_state) (w : world) (line : string)
  (lines : list string) (seen : gset string).

Lemma substitute_line_spec st line :
  substitute_line sv base_dir st line =
  match audio_reference line with
  | None => mret (emit st line)
  | Some (meta, name) =>
      match audio_transcriptions st !! name with
      | Some text => mret (emit st (audio_line meta text))
      | None =>
          text ← transcribe_audio sv (OsPath.join base_dir name);
          mret {| result_lines := result_lines st ++ [audio_line meta text];
                  audio_transcriptions := <[name := text]> (audio_transcriptions st) |}
      end
  end.
Proof.
  unfold substitute_line, audio_reference.
  destruct (Re.search audio_line_pattern line) as [m|]; simpl; [|done].
  destruct (py_or (Re.group m 2) (Re.group m 3)) as [[|a s]|]; simpl; done.
Qed.

Lemma audio_reference_None line :
  Re.search audio_line_pattern line = None → audio_reference line = None.
Proof. unfold audio_reference. by intros ->. Qed.

Lemma audio_reference_Some line m name :
  Re.search audio_line_pattern line = Some m →
  py_or (Re.group m 2) (Re.group m 3) = Some name →
  ∃ meta, Re.group m 1 = Some meta ∧ audio_reference line = Some (meta, name).
Proof.
  intros Hm Hname.
  destruct (audio_match_shape line m Hm) as (t & meta & name' & stem & Hsuffix & Hshape).
  pose proof (audio_name_nonempty _ _ Hsuffix) as Hne.
  assert (Re.group m 1 = Some meta ∧
          py_or (Re.group m 2) (Re.group m 3) = Some name') as [Hmeta Hor].
  { unfold Re.group. destruct Hshape as [-> | ->].
    - split; [by simplify_map_eq|].
      rewrite lookup_insert_ne, lookup_insert_eq by done. by apply py_or_nonempty.
    - split; by simplify_map_eq. }
  assert (name' = name) as -> by congruence.
  exists meta. split; [done|].
  unfold audio_reference. rewrite Hm. simpl. rewrite Hname. simpl.
  rewrite decide_False by done. by rewrite Hmeta.
Qed.

(** One line: what is emitted, what becomes of the cache and the world. *)
Lemma substitute_line_step st line w :
  ∃ st' w' out,
    substitute_line sv base_dir st line w = (Ret st', w') ∧
    result_lines st' = result_lines st ++ [out] ∧
    match audio_reference line with
    | None =>
        out = line ∧ audio_transcriptions st' = audio_transcriptions st ∧ w' = w
    | Some (meta, name) =>
        match audio_transcriptions st !! name with
        | Some text =>
            out = audio_line meta text ∧
            audio_transcriptions st' = audio_transcriptions st ∧ w' = w
        | None =>
            ∃ text,
              transcribe_audio sv (OsPath.join base_dir name) w = (Ret text, w') ∧
              out = audio_line meta text ∧
              audio_transcriptions st' = <[name := text]> (audio_transcriptions st)
        end
    end.
Proof.
  rewrite substitute_line_spec.
  destruct (audio_reference line) as [[meta name]|].
  - destruct (audio_transcriptions st !! name) as [text|] eqn:Hc.
    + by eexists _, _, _.
    + destruct (transcribe_audio_returns sv (OsPath.join base_dir name) w)
        as (text & w' & _ & Hrun & _).
      unfold mbind, M_bind. rewrite Hrun.
      eexists _, _, _. split_and!; [done..|]. by exists text.
  - by eexists _, _, _.
Qed.

Lemma from_adapter_insert cache name text w w' :
  from_adapter sv base_dir cache →
  transcribe_audio sv (OsPath.join base_dir name) w = (Ret text, w') →
  from_adapter sv base_dir (<[name := text]> cache).
Proof.
  intros Hc Hrun name' text'. rewrite lookup_insert.
  destruct (decide (name = name')) as [<-|]; [|apply Hc].
  intros [= <-]. exists w. by rewrite Hrun.
Qed.

(** The whole loop, from any state. *)
Lemma substitution_loop lines : ∀ st w,
  ∃ st' w' outs,
    for_each (substitute_line sv base_dir) lines st w = (Ret st', w') ∧
    result_lines st' = result_lines st ++ outs ∧
    length outs = length lines ∧
    audio_transcriptions st ⊆ audio_transcriptions st' ∧
    (from_adapter sv base_dir (audio_transcriptions st) →
     from_adapter sv base_dir (audio_transcriptions st')) ∧
    w' = fold_left (after_adapter sv base_dir)
           (cache_misses (dom (audio_transcriptions st)) lines) w ∧
    ∀ i line, lines !! i = Some line →
      match audio_reference line with
      | None => outs !! i = Some line
      | Some (meta, name) =>
          ∃ text, audio_transcriptions st' !! name = Some text ∧
                  outs !! i = Some (audio_line meta text)
      end.
Proof.
  induction lines as [|line rest IH]; intros st w.
  - exists st, w, []. simpl. rewrite app_nil_r. split_and!; try done.
  - destruct (substitute_line_step st line w) as (st1 & w1 & out & Hstep & Hres & Hcase).
    destruct (IH st1 w1) as (st' & w' & outs & Hloop & Hres' & Hlen & Hsub & Hfrom & Hw & Hlines).
    exists st', w', (out :: outs). simpl.
    unfold mbind, M_bind. rewrite Hstep.
    split; [exact Hloop|]. split; [by rewrite Hres', Hres, <- app_assoc|].
    split; [by rewrite Hlen|].
    destruct (audio_reference line) as [[meta name]|] eqn:Href.
    + destruct (audio_transcriptions st !! name) as [text|] eqn:Hc.
      * destruct Hcase as (-> & Hcache & ->). rewrite Hcache in *.
        rewrite decide_True by (apply elem_of_dom; eauto).
        split_and!; [done..|].
        intros [|i] l Hl; simpl in *; [|by apply Hlines].
        injection Hl as <-. rewrite Href. exists text. split; [|done].
        by eapply lookup_weaken.
      * destruct Hcase as (text & Hrun & -> & Hcache). rewrite Hcache in *.
        rewrite decide_False by (by apply not_elem_of_dom).
        rewrite dom_insert_L in Hw. simpl.
        split_and!.
        -- etrans; [|exact Hsub]. by apply insert_subseteq.
        -- intros Hst. apply Hfrom. by eapply from_adapter_insert.
        -- unfold after_adapter at 2. by rewrite Hrun.
        -- intros [|i] l Hl; simpl in *; [|by apply Hlines].
           injection Hl as <-. rewrite Href. exists text. split; [|done].
           eapply lookup_weaken; [|exact Hsub]. by rewrite lookup_insert_eq.
    + destruct Hcase as (-> & Hcache & ->). rewrite Hcache in *.
      split_and!; [done..|].
      intros [|i] l Hl; simpl in *; [|by apply Hlines].
      injection Hl as <-. by rewrite Href.
Qed.

Lemma cache_misses_fresh lines : ∀ seen,
  NoDup (cache_misses seen lines) ∧
  ∀ name, name ∈ cache_misses seen lines → name ∉ seen.
Proof.
  induction lines as [|line rest IH]; intros seen; simpl.
  - split; [constructor|]. intros name H. by apply not_elem_of_nil in H.
  - destruct (audio_reference line) as [[meta name]|]; [|apply IH].
    destruct (decide (name ∈ seen)) as [Hin|Hin]; [apply IH|].
    destruct (IH ({[name]} ∪ seen)) as [Hnd Hfresh]. split.
    + constructor; [|done]. intros H. apply Hfresh in H.
      apply H, elem_of_union_l, elem_of_singleton. done.
    + intros name' [->|H]%elem_of_cons; [done|]. apply Hfresh in H.
      intros Hs. by apply H, elem_of_union_r.
Qed.

Lemma cache_misses_referenced lines : ∀ seen name,
  name ∈ cache_misses seen lines →
  ∃ line meta, line ∈ lines ∧ audio_reference line = Some (meta, name).
Proof.
  induction lines as [|line rest IH]; intros seen name; simpl.
  - by intros H%not_elem_of_nil.
  - assert (Hrest : ∀ seen', name ∈ cache_misses seen' rest →
      ∃ line0 meta, line0 ∈ line :: rest ∧ audio_reference line0 = Some (meta, name)).
    { intros seen' Hin. destruct (IH seen' name Hin) as (l & meta & Hl & Hr).
      exists l, meta. split; [by right|done]. }
    destruct (audio_reference line) as [[meta name']|] eqn:Href; [|apply Hrest].
    destruct (decide (name' ∈ seen)); [apply Hrest|].
    intros [->|H]%elem_of_cons; [|by eapply Hrest].
    exists line, meta. split; [by left|done].
Qed.

Lemma adapter_calls_bound names : ∀ w,
  length (stt_calls (fold_left (after_adapter sv base_dir) names w))
    ≤ length (stt_calls w) + length names.
Proof.
  induction names as [|name names IH]; intros w; simpl; [lia|].
  etrans; [apply IH|]. unfold after_adapter.
  destruct (transcribe_audio_returns sv (OsPath.join base_dir name) w)
    as (text & w' & calls & Hrun & Hcalls & Hle).
  rewrite Hrun. simpl. rewrite Hcalls, length_app. lia.
Qed.

End Substitution.

Section Build.

Context (sv : services) (base_dir : string).
Implicit Types (file : list string) (start_dt : option datetime) (w : world).

Lemma from_adapter_empty : from_adapter sv base_dir ∅.
Proof. intros name text H. by rewrite lookup_empty in H. Qed.

(** The builder is the substitution pass on the retained lines, joined. *)
Lemma build_full_transcript_pass file start_dt w :
  ∃ st,
    substitution_pass sv base_dir (retained_lines start_dt file) w
      = (Ret st, fold_left (after_adapter sv base_dir)
                   (cache_misses ∅ (retained_lines start_dt file)) w) ∧
    build_full_transcript sv file base_dir start_dt w
      = (Ret (Str.concat (result_lines st)),
         fold_left (after_adapter sv base_dir)
           (cache_misses ∅ (retained_lines start_dt file)) w) ∧
    length (result_lines st) = length (retained_lines start_dt file) ∧
    from_adapter sv base_dir (audio_transcriptions st) ∧
    ∀ i line, retained_lines start_dt file !! i = Some line →
      match audio_reference line with
      | None => result_lines st !! i = Some line
      | Some (meta, name) =>
          ∃ text, audio_transcriptions st !! name = Some text ∧
                  result_lines st !! i = Some (audio_line meta text)
      end.
Proof.
  destruct (substitution_loop sv base_dir (retained_lines start_dt file) subst_init w)
    as (st & w' & outs & Hloop & Hres & Hlen & _ & Hfrom & Hw & Hlines).
  simpl in Hres, Hw. rewrite dom_empty_L in Hw. subst outs w'.
  exists st. unfold build_full_transcript, substitution_pass, mbind, M_bind.
  rewrite Hloop. split_and!; try done. apply Hfrom, from_adapter_empty.
Qed.


(** C6.  The transcript is the emitted lines joined, one for each
    retained line and in the same order; a retained line on which the
    audio pattern does not match is emitted as it is. *)
Theorem plain_lines_unchanged file start_dt w :
  ∃ outs w',
    build_full_transcript sv file base_dir start_dt w = (Ret (Str.concat outs), w') ∧
    length outs = length (retained_lines start_dt file) ∧
    ∀ i line,
      retained_lines start_dt file !! i = Some line →
      Re.search audio_line_pattern line = None →
      outs !! i = Some line.
Proof.
  destruct (build_full_transcript_pass file start_dt w)
    as (st & _ & Hbuild & Hlen & _ & Hlines).
  eexists (result_lines st), _. split_and!; [exact Hbuild|exact Hlen|].
  intros i line Hi Hm. specialize (Hlines i line Hi).
  by rewrite (audio_reference_None line Hm) in Hlines.
Qed.

(** C7.  In one build the adapter runs once for each file name that the
    retained lines refer to, in the order of the first references, and
    not at all for a later reference to the same name: the world after
    the build is the world after these runs.  A run of the adapter
    submits at most one file to the speech-to-text service, so the build
    adds at most one call for each distinct name.  All references to a
    name are replaced with the same text, the one in the cache. *)
Theorem one_adapter_run_per_name file start_dt w :
  let lines := retained_lines start_dt file in
  let names := cache_misses ∅ lines in
  let w' := snd (build_full_transcript sv file base_dir start_dt w) in
  NoDup names ∧
  (∀ name, name ∈ names →
     ∃ line meta, line ∈ lines ∧ audio_reference line = Some (meta, name)) ∧
  w' = fold_left (after_adapter sv base_dir) names w ∧
  (∀ name w0, ∃ calls,
     stt_calls (after_adapter sv base_dir w0 name) = stt_calls w0 ++ calls ∧
     length calls ≤ 1) ∧
  length (stt_calls w') ≤ length (stt_calls w) + length names ∧
  (∃ st, substitution_pass sv base_dir lines w = (Ret st, w') ∧
     ∀ i line meta name,
       lines !! i = Some line → audio_reference line = Some (meta, name) →
       ∃ text, audio_transcriptions st !! name = Some text ∧
               result_lines st !! i = Some (audio_line meta text)).
Proof.
  intros lines names w'.
  destruct (build_full_transcript_pass file start_dt w)
    as (st & Hpass & Hbuild & _ & _ & Hlines).
  assert (Hw : w' = fold_left (after_adapter sv base_dir) names w).
  { unfold w'. by rewrite Hbuild. }
  split_and!.
  - apply cache_misses_fresh.
  - apply cache_misses_referenced.
  - exact Hw.
  - intros name w0. unfold after_adapter.
    destruct (transcribe_audio_returns sv (OsPath.join base_dir name) w0)
      as (text & w1 & calls & Hrun & Hcalls & Hle).
    exists calls. by rewrite Hrun.
  - rewrite Hw. apply adapter_calls_bound.
  - exists st. split; [by rewrite Hw|].
    intros i line meta name Hi Href. specialize (Hlines i line Hi).
    by rewrite Href in Hlines.
Qed.

End Build.

(** The scenario of the specification: the service hears "Hello" in
    [note.opus]. *)
Example build_scenario :
  fst (build_full_transcript sv_hello [audio_line_sample] "extracted_chat" None
         world_sample)
  = Ret ("[01.02.23, 10:00:00] Alice: [AUDIO] Hello" +:+ nl).
Proof. vm_compute. reflexivity. Qed.


Lemma plain_lines_unchanged_witness :
  ∃ outs,
    fst (build_full_transcript sv_hello file_same_audio_twice "extracted_chat" None
           world_sample) = Ret (Str.concat outs) ∧
    outs !! 1 = Some ("[01.02.23, 10:01:00] Bob: listen to this" +:+ nl).
Proof.
  destruct (plain_lines_unchanged sv_hello "extracted_chat" file_same_audio_twice None
              world_sample) as (outs & w' & Hbuild & _ & Hlines).
  exists outs. split; [by rewrite Hbuild|].
  apply Hlines; vm_compute; reflexivity.
Defined.

Lemma one_adapter_run_per_name_witness :
  length (stt_calls (snd (build_full_transcript sv_hello file_same_audio_twice
                            "extracted_chat" None world_sample))) ≤ 1.
Proof.
  apply (proj1 (proj2 (proj2 (proj2 (proj2
    (one_adapter_run_per_name sv_hello "extracted_chat" file_same_audio_twice None
       world_sample)))))).
Defined.

(* ===================================================================== *)
(** * The archive extractor                                               *)
(* ===================================================================== *)

Section Extractor.

Implicit Types (top : Fs.path) (n : Fs.node) (es : list (string * Fs.node)).

Lemma node_ind' (P : Fs.node → Prop) :
  P Fs.File →
  (∀ es, Forall (λ e, P (snd e)) es → P (Fs.Dir es)) →
  ∀ n, P n.
Proof.
  intros HF HD. fix IH 1. intros [|es]; [exact HF|].
  apply HD. induction es as [|[name c] es IHes]; constructor; [apply IH|exact IHes].
Qed.

Lemma walk_dir top es :
  Fs.walk top (Fs.Dir es) =
    (top, Fs.dirnames es, Fs.filenames es) :: walk_below top es.
Proof.
  simpl. f_equal. unfold walk_below.
  induction es as [|[name c] es IH]; simpl; [done|]. by rewrite IH.
Qed.

Lemma file_paths_dir top es :
  Fs.file_paths top (Fs.Dir es) = file_paths_below top es.
Proof.
  simpl. unfold file_paths_below.
  induction es as [|[name c] es IH]; simpl; [done|]. by rewrite IH.
Qed.

Lemma find_chat_app l1 l2 :
  find_chat (l1 ++ l2) =
    match find_chat l1 with Some p => Some p | None => find_chat l2 end.
Proof.
  induction l1 as [|[[r ds] fs] l1 IH]; simpl; [done|].
  by destruct (decide (CHAT_FILE_NAME ∈ fs)).
Qed.

Lemma last_snoc_name top (name : string) : last (top ++ [name]) = Some name.
Proof. apply last_snoc. Qed.

Lemma elem_of_filenames name es :
  name ∈ Fs.filenames es ↔ (name, Fs.File) ∈ es.
Proof.
  unfold Fs.filenames. rewrite list_elem_of_fmap. split.
  - intros ([name' c] & -> & [Hd Hin]%list_elem_of_filter). simpl in *.
    by destruct c.
  - intros Hin. exists (name, Fs.File). split; [done|].
    by apply list_elem_of_filter.
Qed.

Lemma file_in_below top es name :
  (name, Fs.File) ∈ es → top ++ [name] ∈ file_paths_below top es.
Proof.
  intros Hin. unfold file_paths_below. apply list_elem_of_In, in_flat_map.
  exists (name, Fs.File). split; [by apply list_elem_of_In|]. simpl. by left.
Qed.

Lemma find_chat_walk n : search_correct n.
Proof.
  induction n as [|es IH] using node_ind'; intros top es' Heq; [done|].
  injection Heq as <-. rewrite walk_dir. simpl.
  destruct (decide (CHAT_FILE_NAME ∈ Fs.filenames es)) as [Hin|Hnin].
  { split; [|apply last_snoc_name].
    by apply file_in_below, elem_of_filenames. }
  assert (Hfiles : ∀ name, (name, Fs.File) ∈ es → name ≠ CHAT_FILE_NAME).
  { intros name Hname ->. by apply Hnin, elem_of_filenames. }
  clear Hnin. unfold walk_below, file_paths_below.
  induction es as [|[name c] es IHes]; simpl.
  - intros p Hp. by apply not_elem_of_nil in Hp.
  - inversion IH as [|? ? Hc IH']; subst. simpl in Hc.
    assert (Hfiles' : ∀ name0, (name0, Fs.File) ∈ es → name0 ≠ CHAT_FILE_NAME).
    { intros name0 H0. apply Hfiles. by right. }
    specialize (IHes IH' Hfiles').
    rewrite find_chat_app.
    destruct c as [|es_c].
    + simpl.
      destruct (find_chat (flat_map _ es)) as [p|].
      * destruct IHes as [Hp Hl]. split; [by right|done].
      * intros p [->|Hp]%elem_of_cons; [|by apply IHes].
        rewrite last_snoc_name. intros [= Hn]. eapply Hfiles; [by left|done].
    + specialize (Hc (top ++ [name]) es_c eq_refl).
      rewrite <- file_paths_dir in Hc.
      destruct (find_chat (Fs.walk (top ++ [name]) (Fs.Dir es_c))) as [p|].
      * destruct Hc as [Hp Hl]. split; [|done]. apply elem_of_app. by left.
      * destruct (find_chat (flat_map _ es)) as [p|].
        -- destruct IHes as [Hp Hl]. split; [|done]. apply elem_of_app. by right.
        -- intros p [Hp|Hp]%elem_of_app; [by apply Hc|by apply IHes].
Qed.


Lemma lookup_snoc top (name : string) root :
  Fs.lookup (top ++ [name]) root =
    n ← Fs.lookup top root;
    match n with Fs.Dir es => Fs.entry name es | Fs.File => None end.
Proof.
  revert root. induction top as [|x top IH]; intros root; simpl.
  - destruct root as [|es]; [done|]. by destruct (Fs.entry name es).
  - destruct root as [|es]; [done|]. destruct (Fs.entry x es) as [c|]; simpl; [|done].
    apply IH.
Qed.

Lemma entry_elem_of name es c : Fs.entry name es = Some c → (name, c) ∈ es.
Proof.
  induction es as [|[x c'] es IH]; simpl; [done|].
  destruct (decide (x = name)) as [->|]; [intros [= ->]; by left|].
  intros H. right. by apply IH.
Qed.

Implicit Types (extractall : extractor) (zip_path extract_to : Fs.path)
  (root : Fs.node).

(** Without the archive the extractor raises, and touches nothing. *)
Lemma unzip_chat_missing_archive extractall zip_path extract_to root :
  Fs.exists_ zip_path root = false →
  unzip_chat extractall zip_path extract_to root = (Raise FileNotFoundError, root).
Proof. intros H. unfold unzip_chat. by rewrite H. Qed.

(** After an extraction that went through, the result is decided by the
    two searches. *)
Lemma unzip_chat_extracted extractall zip_path extract_to root root1 root2 :
  Fs.exists_ zip_path root = true →
  Fs.makedirs extract_to root = Some root1 →
  extractall zip_path extract_to root1 = (Ret (), root2) →
  unzip_chat extractall zip_path extract_to root =
    ( if Fs.exists_ (extract_to ++ [CHAT_FILE_NAME]) root2
      then Ret (extract_to ++ [CHAT_FILE_NAME])
      else match find_chat (Fs.walk_at extract_to root2) with
           | Some found => Ret found
           | None => Raise FileNotFoundError
           end,
      root2 ).
Proof.
  intros Hzip Hmk Hex. unfold unzip_chat, os_makedirs, mbind, M_bind.
  rewrite Hzip, Hmk. simpl. rewrite Hex.
  destruct (Fs.exists_ (extract_to ++ [CHAT_FILE_NAME]) root2); simpl; [done|].
  by destruct (find_chat (Fs.walk_at extract_to root2)).
Qed.

(** As long as no folder named [_chat.txt] lies directly in the
    destination, the extractor does what is asked of it: it raises
    [FileNotFoundError] exactly when there is no regular file named
    [_chat.txt] at any depth, and what it returns is such a file. *)
Lemma unzip_chat_finds_chat_file extractall zip_path extract_to root root1 root2 es :
  Fs.exists_ zip_path root = true →
  Fs.makedirs extract_to root = Some root1 →
  extractall zip_path extract_to root1 = (Ret (), root2) →
  Fs.lookup extract_to root2 = Some (Fs.Dir es) →
  (∀ es', Fs.entry CHAT_FILE_NAME es ≠ Some (Fs.Dir es')) →
  ( fst (unzip_chat extractall zip_path extract_to root) = Raise FileNotFoundError
    ↔ chat_files extract_to root2 = [] ) ∧
  ( ∀ p, fst (unzip_chat extractall zip_path extract_to root) = Ret p →
         p ∈ chat_files extract_to root2 ).
Proof.
  intros Hzip Hmk Hex Hdest Hnofolder.
  rewrite (unzip_chat_extracted _ _ _ _ _ _ Hzip Hmk Hex).
  unfold Fs.exists_, chat_files, Fs.walk_at. rewrite lookup_snoc, Hdest.
  cbn [fst mbind option_bind].
  destruct (Fs.entry CHAT_FILE_NAME es) as [[|es']|] eqn:Hentry.
  - rewrite bool_decide_eq_true_2 by eauto.
    assert (Hin : extract_to ++ [CHAT_FILE_NAME] ∈
              filter (λ p, last p = Some CHAT_FILE_NAME) (file_paths_below extract_to es)).
    { apply list_elem_of_filter. split; [apply last_snoc_name|].
      by apply file_in_below, entry_elem_of. }
    split.
    + split; [intros Hr; discriminate Hr|]. intros Hnil. rewrite Hnil in Hin. by apply not_elem_of_nil in Hin.
    + by intros p [= <-].
  - by destruct (Hnofolder es').
  - rewrite bool_decide_eq_false_2 by (by intros [? ?]).
    pose proof (find_chat_walk (Fs.Dir es) extract_to es eq_refl) as Hsearch.
    destruct (find_chat (Fs.walk extract_to (Fs.Dir es))) as [found|].
    + destruct Hsearch as [Hin Hlast].
      assert (Hf : found ∈ filter (λ p, last p = Some CHAT_FILE_NAME)
                     (file_paths_below extract_to es)).
      { by apply list_elem_of_filter. }
      split.
      * split; [intros Hr; discriminate Hr|]. intros Hnil. rewrite Hnil in Hf. by apply not_elem_of_nil in Hf.
      * by intros p [= <-].
    + split; [|by intros p [=]]. split; [|done]. intros _.
      induction (file_paths_below extract_to es) as [|p l IHl]; [done|].
      rewrite filter_cons_False.
      * apply IHl. intros q Hq. apply Hsearch. by right.
      * apply Hsearch. by left.
Qed.

(** C9, where the program fails it.  The archive holds a folder named
    [_chat.txt] (with a file in it) and no file of that name.  The
    extractor does not raise: [os.path.exists] is true of the folder, and
    the path of the folder is returned as the path of the chat file.  With
    the chat file deeper in the same archive the folder is returned all
    the same, not the file.  The search of the subfolders does tell a
    folder from a file: with the folder [_chat.txt] one level down, the
    extractor raises. *)
Theorem unzip_chat_takes_folder_for_chat_file :
  let run := unzip_chat (Zip.extractall archive_chat_folder)
               ZIP_FILE EXTRACT_DIR disk_sample in
  let run' := unzip_chat (Zip.extractall archive_chat_folder_and_file)
                ZIP_FILE EXTRACT_DIR disk_sample in
  let run'' := unzip_chat (Zip.extractall archive_chat_folder_nested)
                 ZIP_FILE EXTRACT_DIR disk_sample in
  ( fst run = Ret ["extracted_chat"; "_chat.txt"] ∧
    Fs.is_dir <$> Fs.lookup ["extracted_chat"; "_chat.txt"] (snd run) = Some true ∧
    chat_files EXTRACT_DIR (snd run) = [] ) ∧
  ( fst run' = Ret ["extracted_chat"; "_chat.txt"] ∧
    Fs.is_dir <$> Fs.lookup ["extracted_chat"; "_chat.txt"] (snd run') = Some true ∧
    chat_files EXTRACT_DIR (snd run') = [["extracted_chat"; "WhatsApp Chat"; "_chat.txt"]] ) ∧
  ( fst run'' = Raise FileNotFoundError ∧
    Fs.is_dir <$> Fs.lookup ["extracted_chat"; "WhatsApp Chat"; "_chat.txt"] (snd run'')
      = Some true ∧
    chat_files EXTRACT_DIR (snd run'') = [] ).
Proof. vm_compute. repeat split. Qed.

End Extractor.

(** The chat file in a folder of the archive is found. *)
Example unzip_chat_nested :
  fst (unzip_chat (Zip.extractall archive_nested) ZIP_FILE EXTRACT_DIR disk_sample)
  = Ret ["extracted_chat"; "WhatsApp Chat"; "_chat.txt"].
Proof. vm_compute. reflexivity. Qed.

Example unzip_chat_no_archive :
  fst (unzip_chat (Zip.extractall archive_nested) ZIP_FILE EXTRACT_DIR (Fs.Dir []))
  = Raise FileNotFoundError.
Proof. vm_compute. reflexivity. Qed.

(* ===================================================================== *)
(** * More on the block parser                                            *)
(* ===================================================================== *)

Section Order.

Lemma lex_le_trans (a : list Z) : ∀ b c,
  Datetime.lex_le a b = true → Datetime.lex_le b c = true → Datetime.lex_le a c = true.
Proof.
  induction a as [|x a IH]; intros [|y b] [|z c]; simpl; try done.
  destruct (Z.ltb_spec x y), (Z.ltb_spec y x), (Z.ltb_spec y z),
    (Z.ltb_spec z y), (Z.ltb_spec x z), (Z.ltb_spec z x);
    try done; try lia.
  apply IH.
Qed.

Lemma datetime_ge_trans (a b c : datetime) :
  Datetime.ge a b = true → Datetime.ge b c = true → Datetime.ge a c = true.
Proof. unfold Datetime.ge. intros Hab Hbc. by eapply lex_le_trans. Qed.

Lemma sublist_concat_fmap {A B} (f : A → list B) (l1 l2 : list A) :
  l1 `sublist_of` l2 → concat (f <$> l1) `sublist_of` concat (f <$> l2).
Proof.
  induction 1 as [|x l1 l2 _ IH|x l1 l2 _ IH]; simpl.
  - done.
  - by apply sublist_app.
  - by apply sublist_inserts_l.
Qed.

Lemma sublist_filter_impl {A} (P Q : A → Prop)
    `{!∀ x, Decision (P x)} `{!∀ x, Decision (Q x)} (l : list A) :
  (∀ x, P x → Q x) → filter P l `sublist_of` filter Q l.
Proof.
  intros HPQ. induction l as [|x l IH]; [done|].
  rewrite !filter_cons. destruct (decide (P x)) as [HP|HP].
  - rewrite decide_True by auto. by constructor.
  - destruct (decide (Q x)); [by constructor|done].
Qed.

Implicit Types (file : list string) (start_dt : option datetime) (D : datetime).

(** X1.  The block parser neither reorders nor repeats nor invents lines:
    what it retains is a subsequence of the lines of the file, whatever the
    cutoff. *)
Theorem retained_lines_in_file_order start_dt file :
  retained_lines start_dt file `sublist_of` file.
Proof.
  rewrite retained_lines_spec.
  rewrite <- (split_blocks_concat file [] None) at 2. simpl.
  apply sublist_concat_fmap, sublist_filter.
Qed.

Lemma kept_later_cutoff D1 D2 (b : block) :
  Datetime.ge D2 D1 = true → kept (Some D2) b = true → kept (Some D1) b = true.
Proof.
  intros HD. rewrite !kept_cutoff. intros [Hne (d & Hd & Hge)].
  split; [done|]. exists d. split; [done|]. by eapply datetime_ge_trans.
Qed.

(** X2.  Moving the cutoff later only removes lines: with [D1 <= D2], the
    lines retained under [D2] are a subsequence of those retained under
    [D1]. *)
Theorem retained_lines_cutoff_monotone D1 D2 file :
  Datetime.ge D2 D1 = true →
  retained_lines (Some D2) file `sublist_of` retained_lines (Some D1) file.
Proof.
  intros HD. rewrite !retained_lines_spec.
  apply sublist_concat_fmap, sublist_filter_impl.
  intros b. by apply kept_later_cutoff.
Qed.

End Order.

Lemma retained_lines_cutoff_monotone_witness :
  retained_lines (Some feb_2_2023_10h) file_two_blocks
    `sublist_of` retained_lines (Some feb_1_2023) file_two_blocks.
Proof.
  apply (retained_lines_cutoff_monotone feb_1_2023 feb_2_2023_10h file_two_blocks).
  reflexivity.
Defined.

Section Composition.

Implicit Types (file cur : list string) (d : option datetime)
  (start_dt : option datetime) (D : datetime) (b : block).

(** A header line closes the block being collected, so what follows it is
    parsed as a file of its own. *)
Lemma split_blocks_app_headed file1 file2 : ∀ cur d,
  file2 = [] ∨ starts_headed file2 = true →
  split_blocks cur d (file1 ++ file2) =
    split_blocks cur d file1 ++ split_blocks [] None file2.
Proof.
  intros cur d Hh. revert cur d.
  induction file1 as [|line rest IH]; intros cur d; simpl.
  - destruct Hh as [->|Hh]; [by rewrite app_nil_r|].
    destruct file2 as [|h file2]; [done|]. simpl in *.
    apply is_header_true in Hh as [ds Hds]. rewrite Hds. done.
  - destruct (date_match line); [|apply IH].
    by rewrite IH, app_assoc.
Qed.

(** X3.  Cutting a file in front of a header line cuts the parse: the
    blocks of the whole are the blocks of the two parts, and so are the
    retained lines, under any cutoff. *)
Theorem parse_splits_at_header file1 file2 start_dt :
  file2 = [] ∨ starts_headed file2 = true →
  blocks (file1 ++ file2) = blocks file1 ++ blocks file2 ∧
  retained_lines start_dt (file1 ++ file2) =
    retained_lines start_dt file1 ++ retained_lines start_dt file2.
Proof.
  intros Hh. rewrite !blocks_spec, !retained_lines_spec.
  rewrite split_blocks_app_headed by done.
  by rewrite filter_app, fmap_app, concat_app.
Qed.

Lemma headed_block_starts_headed b :
  headed_block b → starts_headed (blk_lines b) = true.
Proof.
  intros (h & t & ds & -> & Hds & _). simpl. apply is_header_true. by rewrite Hds.
Qed.

(** The lines of blocks made by header lines parse back into these blocks. *)
Lemma split_blocks_of_headed (bs : list block) :
  Forall headed_block bs →
  split_blocks [] None (concat (blk_lines <$> bs)) = bs.
Proof.
  induction 1 as [|b bs Hb Hbs IH]; [done|].
  rewrite fmap_cons. cbn [concat].
  rewrite split_blocks_app_headed.
  - rewrite IH. f_equal.
    destruct Hb as (h & t & ds & Hl & Hds & Ht & Hd).
    rewrite Hl. simpl. rewrite Hds. simpl.
    rewrite <- (app_nil_r t), split_blocks_plain_prefix by done. simpl.
    destruct b as [ls dt]. simpl in *. by subst.
  - apply headed_concat. eapply Forall_impl; [exact Hbs|].
    apply headed_block_starts_headed.
Qed.

(** Under a cutoff, a retained block is one made by a header line. *)
Lemma kept_block_headed file D b :
  b ∈ blocks file → kept (Some D) b = true → headed_block b.
Proof.
  intros Hb Hk. apply kept_cutoff in Hk as [_ (dt & Hdt & _)].
  pose proof (blocks_dated file b Hb) as Hdated.
  assert (Hpt : plain_tail (blk_lines b)).
  { pose proof (split_blocks_plain_tail file [] None ltac:(constructor)) as HF.
    rewrite Forall_forall in HF. apply HF. by rewrite <- blocks_spec. }
  destruct (blk_lines b) as [|h t] eqn:Hl.
  { by destruct (blocks_nonempty file b Hb). }
  simpl in Hdated. destruct (date_match h) as [ds|] eqn:Hds; [|congruence].
  by exists h, t, ds.
Qed.

Lemma retained_lines_no_cutoff file : retained_lines None file = file.
Proof.
  rewrite retained_lines_blocks, retained_none, blocks_spec.
  apply split_blocks_concat.
Qed.

(** X4.  Parsing is idempotent: the retained lines, parsed again under the
    same cutoff, are all retained. *)
Theorem retained_lines_idempotent start_dt file :
  retained_lines start_dt (retained_lines start_dt file) = retained_lines start_dt file.
Proof.
  destruct start_dt as [D|]; [|by rewrite !retained_lines_no_cutoff].
  rewrite (retained_lines_spec (Some D) file).
  set (rb := filter (λ b, kept (Some D) b = true) (split_blocks [] None file)).
  assert (Hrb : Forall headed_block rb).
  { apply Forall_forall. intros b [Hk Hb]%list_elem_of_filter.
    apply (kept_block_headed file D); [by rewrite blocks_spec|done]. }
  rewrite retained_lines_spec, split_blocks_of_headed by done.
  f_equal. f_equal. unfold rb. rewrite list_filter_filter.
  apply list_filter_iff. intros b. tauto.
Qed.

End Composition.

Lemma parse_splits_at_header_witness :
  blocks file_two_blocks =
    blocks [ "[31.01.23, 09:00:00] Bob: old" +:+ nl; "more" +:+ nl ] ++
    blocks [ "[02.02.23, 10:00:00] Alice: new" +:+ nl ].
Proof.
  apply (parse_splits_at_header
           [ "[31.01.23, 09:00:00] Bob: old" +:+ nl; "more" +:+ nl ]
           [ "[02.02.23, 10:00:00] Alice: new" +:+ nl ] None).
  right. reflexivity.
Defined.

Section DayBoundary.

Implicit Types (file : list string) (D d : datetime) (b : block).

Lemma strptime_midnight s f d :
  Datetime.strptime s f = Some d →
  at_midnight d ∧
  Datetime.valid_date (Datetime.year d) (Datetime.month d) (Datetime.day d) = true.
Proof.
  unfold Datetime.strptime. intros H.
  destruct (Re.match_ _ s) as [found|]; simpl in H; [|done].
  destruct (Re.group found 0) as [whole|]; simpl in H; [|done].
  destruct (decide _); [done|].
  destruct (Datetime.group_int found 1) as [dd|]; simpl in H; [|done].
  destruct (Datetime.group_int found 2) as [mm|]; simpl in H; [|done].
  destruct (Datetime.group_int found 3) as [yy|]; simpl in H; [|done].
  destruct (Datetime.valid_date _ mm dd) eqn:Hv; [|done].
  injection H as <-. by repeat split.
Qed.

Lemma parse_block_date_midnight s d :
  parse_block_date s = Some d →
  at_midnight d ∧
  Datetime.valid_date (Datetime.year d) (Datetime.month d) (Datetime.day d) = true.
Proof. unfold parse_block_date. destruct (decide _); apply strptime_midnight. Qed.

(** The date of a block is a day of the calendar, at midnight. *)
Lemma block_date_midnight file b d :
  b ∈ blocks file → blk_date b = Some d →
  at_midnight d ∧
  Datetime.valid_date (Datetime.year d) (Datetime.month d) (Datetime.day d) = true.
Proof.
  intros Hb Hd. pose proof (blocks_dated file b Hb) as Hdated.
  destruct (blk_lines b) as [|h t]; simpl in Hdated; [congruence|].
  destruct (date_match h) as [ds|]; [|congruence].
  apply (parse_block_date_midnight ds). congruence.
Qed.

(** X5.  The date of a block is midnight of a day of the calendar, so the
    messages of the day of the cutoff are retained exactly when the cutoff
    is at midnight: a cutoff later in the day drops the whole day. *)
Theorem cutoff_day_boundary file D b d :
  b ∈ blocks file → blk_date b = Some d →
  same_day D d → time_fields_ok D →
  (b ∈ retained_blocks (Some D) file ↔ at_midnight D).
Proof.
  intros Hb Hd (Hy & Hm & Hdd) (Hh & Hmi & Hs & Hus).
  destruct (block_date_midnight file b d Hb Hd) as [(Hh0 & Hmi0 & Hs0 & Hus0) _].
  rewrite retained_blocks_spec, list_elem_of_filter, kept_cutoff, Hd.
  assert (Hge : Datetime.ge d D = true ↔ at_midnight D).
  { unfold Datetime.ge, Datetime.to_tuple, at_midnight. simpl.
    rewrite Hy, Hm, Hdd, Hh0, Hmi0, Hs0, Hus0, !Z.ltb_irrefl.
    destruct (Z.ltb_spec (Datetime.hour D) 0), (Z.ltb_spec 0 (Datetime.hour D)),
      (Z.ltb_spec (Datetime.minute D) 0), (Z.ltb_spec 0 (Datetime.minute D)),
      (Z.ltb_spec (Datetime.second D) 0), (Z.ltb_spec 0 (Datetime.second D)),
      (Z.ltb_spec (Datetime.microsecond D) 0), (Z.ltb_spec 0 (Datetime.microsecond D));
      split; intros; try done; try lia. }
  split.
  - intros [[_ (d' & [= <-] & Hge')] _]. by apply Hge.
  - intros Hmid. split; [|done]. split; [by eapply blocks_nonempty|].
    exists d. split; [done|]. by apply Hge.
Qed.

End DayBoundary.

Lemma cutoff_day_boundary_witness :
  Block [ "[02.02.23, 10:00:00] Alice: new" +:+ nl ] (Some (midnight 2023 2 2))
    ∈ retained_blocks (Some (midnight 2023 2 2)) file_two_blocks ∧
  Block [ "[02.02.23, 10:00:00] Alice: new" +:+ nl ] (Some (midnight 2023 2 2))
    ∉ retained_blocks (Some feb_2_2023_10h) file_two_blocks.
Proof.
  split.
  - apply (cutoff_day_boundary file_two_blocks (midnight 2023 2 2) _ (midnight 2023 2 2)).
    + in_computed_list.
    + reflexivity.
    + repeat split.
    + repeat split; vm_compute; discriminate.
    + repeat split.
  - intros Hin.
    apply (cutoff_day_boundary file_two_blocks feb_2_2023_10h _ (midnight 2023 2 2)) in Hin.
    + destruct Hin as [Hh _]. discriminate Hh.
    + in_computed_list.
    + reflexivity.
    + repeat split.
    + repeat split; vm_compute; discriminate.
Defined.

(* ===================================================================== *)
(** * More on the transcription adapter                                   *)
(* ===================================================================== *)

Section AdapterEffects.

Context (sv : services).
Implicit Types (audio_path : string) (w : world).

Ltac run_adapter :=
  unfold transcribe_audio, try_finally, try_except, pydub_convert, open_rb,
    transcriptions_create, os_path_exists, os_remove,
    mbind, M_bind, mret, M_ret; simpl.


(** A file that needs no conversion and exists goes to the service as it
    is. *)
Lemma transcribe_audio_direct audio_path w text :
  Str.lower (snd (OsPath.splitext audio_path)) ≠ ".opus" →
  audio_path ∈ files w →
  transcribes sv w audio_path = Some text →
  transcribe_audio sv audio_path w =
    (Ret text, {| files := files w; stt_calls := stt_calls w ++ [audio_path] |}).
Proof.
  intros He Hin Hstt. run_adapter.
  rewrite decide_False by done. simpl.
  rewrite decide_True by done. simpl. by rewrite Hstt.
Qed.

(** X7.  What is submitted, and what comes back.  A file that needs no
    conversion is submitted as it is, a converted one as the [.mp3]; the
    text of the service is returned unchanged and the call is logged once.
    A file that needs no conversion and does not exist costs no call: the
    adapter answers with the transcription sentinel at once. *)
Theorem transcribe_audio_submits audio_path w text :
  let file_extension := Str.lower (snd (OsPath.splitext audio_path)) in
  let temp_mp3_path := fst (OsPath.splitext audio_path) +:+ ".mp3" in
  ( file_extension ≠ ".opus" → audio_path ∈ files w →
    transcribes sv w audio_path = Some text →
    transcribe_audio sv audio_path w =
      (Ret text, {| files := files w; stt_calls := stt_calls w ++ [audio_path] |}) ) ∧
  ( file_extension = ".opus" → decodes sv w audio_path = true →
    transcribes sv {| files := files w ∪ {[temp_mp3_path]};
                      stt_calls := stt_calls w |} temp_mp3_path = Some text →
    fst (transcribe_audio sv audio_path w) = Ret text ∧
    stt_calls (snd (transcribe_audio sv audio_path w)) = stt_calls w ++ [temp_mp3_path] ) ∧
  ( file_extension ≠ ".opus" → audio_path ∉ files w →
    transcribe_audio sv audio_path w = (Ret transcription_error, w) ).
Proof.
  intros file_extension temp_mp3_path. split_and!.
  - apply transcribe_audio_direct.
  - intros He Hdec Hstt. run_adapter. fold file_extension temp_mp3_path.
    rewrite decide_True by done. rewrite Hdec. simpl.
    rewrite decide_True by set_solver. simpl. rewrite Hstt. simpl.
    rewrite bool_decide_eq_true_2 by set_solver.
    by rewrite decide_True by set_solver.
  - intros He Hin. run_adapter. fold file_extension.
    rewrite decide_False by done. simpl.
    by rewrite decide_False by done.
Qed.

End AdapterEffects.

Lemma transcribe_audio_submits_witness :
  transcribe_audio sv_hello "extracted_chat/voice.ogg" world_sample =
    (Ret "Hello", {| files := files world_sample;
                     stt_calls := ["extracted_chat/voice.ogg"] |}) ∧
  stt_calls (snd (transcribe_audio sv_hello "extracted_chat/note.opus" world_sample))
    = ["extracted_chat/note.mp3"] ∧
  transcribe_audio sv_hello "extracted_chat/gone.ogg" world_sample =
    (Ret transcription_error, world_sample).
Proof.
  split_and!.
  - apply (proj1 (transcribe_audio_submits sv_hello "extracted_chat/voice.ogg"
                    world_sample "Hello")).
    + vm_compute. discriminate.
    + vm_compute. reflexivity.
    + reflexivity.
  - apply (proj1 (proj2 (transcribe_audio_submits sv_hello "extracted_chat/note.opus"
                           world_sample "Hello"))); reflexivity.
  - apply (proj2 (proj2 (transcribe_audio_submits sv_hello "extracted_chat/gone.ogg"
                           world_sample "Hello"))).
    + vm_compute. discriminate.
    + vm_compute. discriminate.
Defined.

(* ===================================================================== *)
(** * More on the substitution pass                                       *)
(* ===================================================================== *)

Section Anatomy.

Implicit Types (s t : string) (p : ascii → bool).

Lemma all_chars_app p s t : all_chars p (s +:+ t) ↔ all_chars p s ∧ all_chars p t.
Proof.
  induction s as [|a s IH].
  - rewrite str_app_nil_l. simpl. tauto.
  - rewrite str_app_cons. simpl. rewrite IH. tauto.
Qed.

Lemma search_from_located r line : ∀ pos m,
  Re.search_from r pos line = Some m →
  ∃ pre t post g',
    line = pre +:+ t +:+ post ∧ derives r ∅ t g' ∧ m = <[0 := t]> g'.
Proof.
  induction line as [|a line IH]; intros pos m; simpl.
  - destruct (Re.run r _ pos "" ∅) eqn:Hr; [|done]. intros [= <-].
    apply (run_derives (Group 0 r)) in Hr as (t & s' & g' & Hs & Hd & [= <-]).
    inversion Hd; subst. exists "", t, s'. eexists. split_and!; [done|eassumption|done].
  - destruct (Re.run r _ pos (String a line) ∅) eqn:Hr.
    + intros [= <-].
      apply (run_derives (Group 0 r)) in Hr as (t & s' & g' & Hs & Hd & [= <-]).
      inversion Hd; subst. exists "", t, s'. eexists.
      split_and!; [done|eassumption|done].
    + intros (pre & t & post & g' & -> & Hd & ->)%IH.
      exists (String a pre), t, post, g'. by rewrite str_app_cons.
Qed.

Lemma audio_name_located n g t g' :
  derives (audio_name n) g t g' →
  ∃ stem, all_chars Re.any_char stem ∧
          (t = stem +:+ ".opus" ∨ t = stem +:+ ".ogg") ∧ g' = <[n := t]> g.
Proof.
  unfold audio_name, audio_ext, Re.seqs. simpl. intros H.
  invert_derives; rewrite ?str_app_nil_r; eauto.
Qed.

Lemma audio_pattern_located g t g' :
  derives audio_line_pattern g t g' →
  ∃ inner sender gap name,
    all_chars Re.any_char (inner +:+ sender +:+ gap +:+ name) ∧
    ( ( t = ("[" +:+ inner +:+ "] " +:+ sender +:+ ":") +:+ gap +:+
              "<Anhang: " +:+ name +:+ ">" ∧
        g' = <[2 := name]>
               (<[1 := "[" +:+ inner +:+ "] " +:+ sender +:+ ":"]> g) ) ∨
      ( t = ("[" +:+ inner +:+ "] " +:+ sender +:+ ":") +:+ gap +:+
              "<Medien ausgeschlossen> (Datei angehängt: " +:+ name +:+ ")" ∧
        g' = <[3 := name]>
               (<[1 := "[" +:+ inner +:+ "] " +:+ sender +:+ ":"]> g) ) ).
Proof.
  unfold audio_line_pattern, Re.seqs. simpl. intros Hd.
  inversion Hd as [| | | | | | |? ? ? t1 g1 ? ? Hmeta Hrest| | |]; subst; clear Hd.
  inversion Hmeta as [| | | | | | | | | |? ? ? ? gm Hm]; subst; clear Hmeta.
  assert (∃ inner sender, all_chars Re.any_char inner ∧ all_chars Re.any_char sender ∧
            t1 = "[" +:+ inner +:+ "] " +:+ sender +:+ ":" ∧ gm = g)
    as (inner & sender & Hinner & Hsender & -> & ->).
  { clear -Hm. invert_derives. rewrite ?str_app_nil_r. eauto 10. }
  clear Hm.
  inversion Hrest as [| | | | | | |? ? ? gap ? ? ? Hstar Halt| | |]; subst; clear Hrest.
  inversion Hstar as [| | |? ? ? Hgap| | | | | | |]; subst; clear Hstar.
  inversion Halt as [| | | | | | |? ? ? ? ? ? ? Halt' Hend| | |]; subst; clear Halt.
  inversion Hend; subst; clear Hend.
  inversion Halt' as [| | | | | | | |? ? ? ? ? Ha|? ? ? ? ? Hb|]; subst; clear Halt'.
  - inversion Ha as [| | | | | | |? ? ? ? ? ? ? Hl Ha'| | |]; subst; clear Ha.
    inversion Hl; subst; clear Hl.
    inversion Ha' as [| | | | | | |? ? ? name ? ? ? Hn Hc| | |]; subst; clear Ha'.
    apply audio_name_located in Hn as (stem & Hstem & Hname & ->).
    invert_derives. exists inner, sender, gap, name. split.
    + rewrite !all_chars_app. split_and!; [done..|].
      destruct Hname as [-> | ->]; rewrite all_chars_app; by split.
    + left. by rewrite !str_app_nil_r.
  - inversion Hb as [| | | | | | |? ? ? ? ? ? ? Hl Hb'| | |]; subst; clear Hb.
    inversion Hl; subst; clear Hl.
    inversion Hb' as [| | | | | | |? ? ? name ? ? ? Hn Hc| | |]; subst; clear Hb'.
    apply audio_name_located in Hn as (stem & Hstem & Hname & ->).
    invert_derives. exists inner, sender, gap, name. split.
    + rewrite !all_chars_app. split_and!; [done..|].
      destruct Hname as [-> | ->]; rewrite all_chars_app; by split.
    + right. by rewrite !str_app_nil_r.
Qed.

(** X9.  The anatomy of a match of the audio pattern.  The line reads:
    something, then the metadata ["[...] ...:"], then something, then one
    of the two attachment tags around the file name, then something; the
    metadata, the gap, and the file name hold no newline.  Group 1 is the
    metadata and the file name is the one the pass looks up.  What stands
    before the bracket, between the metadata and the tag, and after the tag
    is in no group: the pass drops it. *)
Theorem audio_match_anatomy line m :
  Re.search audio_line_pattern line = Some m →
  ∃ pre inner sender gap name post,
    let metadata_part := "[" +:+ inner +:+ "] " +:+ sender +:+ ":" in
    ( line = pre +:+ (metadata_part +:+ gap +:+ "<Anhang: " +:+ name +:+ ">") +:+ post ∨
      line = pre +:+ (metadata_part +:+ gap +:+
               "<Medien ausgeschlossen> (Datei angehängt: " +:+ name +:+ ")") +:+ post ) ∧
    all_chars Re.any_char (inner +:+ sender +:+ gap +:+ name) ∧
    Re.group m 1 = Some metadata_part ∧
    py_or (Re.group m 2) (Re.group m 3) = Some name ∧
    audio_reference line = Some (metadata_part, name).
Proof.
  intros Hsearch.
  pose proof Hsearch as (pre & t & post & g' & -> & Hd & ->)%search_from_located.
  apply audio_pattern_located in Hd as (inner & sender & gap & name & Hchars & Hcase).
  exists pre, inner, sender, gap, name, post. cbn zeta.
  assert (Hgroups : Re.group (<[0:=t]> g') 1 = Some ("[" +:+ inner +:+ "] " +:+ sender +:+ ":") ∧
                    py_or (Re.group (<[0:=t]> g') 2) (Re.group (<[0:=t]> g') 3) = Some name).
  { assert (Hne : name ≠ "").
    { destruct (audio_match_shape _ _ Hsearch) as (t' & meta' & name' & stem & Hsuffix & Hshape).
      pose proof (audio_name_nonempty _ _ Hsuffix) as Hne'.
      unfold Re.group. intros ->.
      destruct Hcase as [[_ ->] | [_ ->]], Hshape as [Hs | Hs];
        apply (f_equal (λ g, (g !! 2, g !! 3))) in Hs; simplify_map_eq. }
    unfold Re.group. destruct Hcase as [[_ ->] | [_ ->]].
    - split; [by simplify_map_eq|].
      rewrite lookup_insert_ne, lookup_insert_eq by done. by apply py_or_nonempty.
    - split; by simplify_map_eq. }
  destruct Hgroups as [Hg1 Hor].
  split_and!; [|done|done|done|].
  - destruct Hcase as [[-> _] | [-> _]]; [left|right]; by rewrite !str_app_assoc.
  - destruct (audio_reference_Some _ _ _ Hsearch Hor) as (meta & Hmeta & Href).
    congruence.
Qed.

End Anatomy.

Lemma audio_match_anatomy_witness :
  ∃ pre inner sender gap name post,
    let metadata_part := "[" +:+ inner +:+ "] " +:+ sender +:+ ":" in
    ( audio_line_sample =
        pre +:+ (metadata_part +:+ gap +:+ "<Anhang: " +:+ name +:+ ">") +:+ post ∨
      audio_line_sample =
        pre +:+ (metadata_part +:+ gap +:+
           "<Medien ausgeschlossen> (Datei angehängt: " +:+ name +:+ ")") +:+ post ) ∧
    all_chars Re.any_char (inner +:+ sender +:+ gap +:+ name) ∧
    Re.group audio_match_sample 1 = Some metadata_part ∧
    py_or (Re.group audio_match_sample 2) (Re.group audio_match_sample 3) = Some name ∧
    audio_reference audio_line_sample = Some (metadata_part, name).
Proof.
  apply (audio_match_anatomy audio_line_sample audio_match_sample).
  vm_compute. reflexivity.
Defined.

Section NoAudio.

Context (sv : services) (base_dir : string).
Implicit Types (file lines : list string) (start_dt : option datetime) (w : world).

Lemma cache_misses_none lines : ∀ seen,
  (∀ line, line ∈ lines → audio_reference line = None) →
  cache_misses seen lines = [].
Proof.
  induction lines as [|line rest IH]; intros seen Hnone; simpl; [done|].
  rewrite (Hnone line) by (by left). apply IH. intros l Hl. apply Hnone. by right.
Qed.

(** X8.  A chat without voice notes goes through the pass untouched: when
    no retained line matches the audio pattern, the transcript is the
    retained lines joined, and neither the decoder nor the service nor a
    file is touched.  Without a cutoff the transcript is then the text of
    the file. *)
Theorem transcript_without_audio file start_dt w :
  (∀ line, line ∈ retained_lines start_dt file →
           Re.search audio_line_pattern line = None) →
  build_full_transcript sv file base_dir start_dt w =
    (Ret (Str.concat (retained_lines start_dt file)), w) ∧
  (start_dt = None →
   build_full_transcript sv file base_dir start_dt w = (Ret (Str.concat file), w)).
Proof.
  intros Hnone.
  assert (Href : ∀ line, line ∈ retained_lines start_dt file → audio_reference line = None).
  { intros line Hl. by apply audio_reference_None, Hnone. }
  destruct (build_full_transcript_pass sv base_dir file start_dt w)
    as (st & _ & Hbuild & Hlen & _ & Hlines).
  rewrite (cache_misses_none _ _ Href) in Hbuild. simpl in Hbuild.
  assert (Hres : result_lines st = retained_lines start_dt file).
  { apply list_eq. intros i.
    destruct (retained_lines start_dt file !! i) as [line|] eqn:Hi.
    - specialize (Hlines i line Hi).
      by rewrite (Href line) in Hlines by (by eapply list_elem_of_lookup_2).
    - apply lookup_ge_None. rewrite Hlen. by apply lookup_ge_None. }
  rewrite Hres in Hbuild. split; [done|].
  intros ->. by rewrite retained_lines_no_cutoff in Hbuild.
Qed.

End NoAudio.

Lemma transcript_without_audio_witness :
  build_full_transcript sv_down file_text_only "extracted_chat" None world_sample =
    (Ret (Str.concat file_text_only), world_sample).
Proof.
  apply (proj2 (transcript_without_audio sv_down "extracted_chat" file_text_only None
                  world_sample
                  ltac:(intros line Hl; vm_compute in Hl;
                        repeat (apply elem_of_cons in Hl as [-> | Hl];
                                [vm_compute; reflexivity|]);
                        by apply not_elem_of_nil in Hl))).
  reflexivity.
Defined.

Section Escape.

Context (sv : services) (base_dir : string).
Implicit Types (st : subst_state) (w : world) (line : string).

Lemma join_absolute (name : string) :
  Str.starts_with "/" name = true → OsPath.join base_dir name = name.
Proof. unfold OsPath.join. by intros ->. Qed.

(** X10.  The file name of a voice note is taken from the chat text as it
    is: a name that starts with ["/"] is not looked for in the media
    folder.  The pass runs the adapter on that absolute path, and a file
    that exists there (and needs no conversion) is submitted to the
    service, whatever the media folder is. *)
Theorem absolute_attachment_leaves_media_folder st line w meta name text :
  audio_reference line = Some (meta, name) →
  Str.starts_with "/" name = true →
  audio_transcriptions st !! name = None →
  Str.lower (snd (OsPath.splitext name)) ≠ ".opus" →
  name ∈ files w →
  transcribes sv w name = Some text →
  substitute_line sv base_dir st line w =
    ( Ret {| result_lines := result_lines st ++ [audio_line meta text];
             audio_transcriptions := <[name := text]> (audio_transcriptions st) |},
      {| files := files w; stt_calls := stt_calls w ++ [name] |} ).
Proof.
  intros Href Habs Hmiss Hext Hin Hstt.
  rewrite substitute_line_spec, Href, Hmiss, join_absolute by done.
  unfold mbind, M_bind.
  by rewrite (transcribe_audio_direct sv name w text Hext Hin Hstt).
Qed.

End Escape.

Lemma absolute_attachment_leaves_media_folder_witness :
  substitute_line sv_hello "extracted_chat" subst_init audio_line_absolute
    world_with_private_file =
    ( Ret {| result_lines := [ "[01.02.23, 10:00:00] Eve: [AUDIO] Hello" +:+ nl ];
             audio_transcriptions := {[ "/home/alice/private.ogg" := "Hello" ]} |},
      {| files := files world_with_private_file;
         stt_calls := [ "/home/alice/private.ogg" ] |} ).
Proof.
  apply (absolute_attachment_leaves_media_folder sv_hello "extracted_chat" subst_init
           audio_line_absolute world_with_private_file
           "[01.02.23, 10:00:00] Eve:" "/home/alice/private.ogg" "Hello").
  - vm_compute. reflexivity.
  - reflexivity.
  - reflexivity.
  - vm_compute. discriminate.
  - vm_compute. reflexivity.
  - reflexivity.
Defined.

(* ===================================================================== *)
(** * More on the archive extractor                                       *)
(* ===================================================================== *)

Section Locate.

Implicit Types (extractall : extractor) (zip_path extract_to : Fs.path)
  (root : Fs.node).

(** X11.  Where no folder named [_chat.txt] lies directly in the
    destination, the extractor finds the chat file at any depth.  After an
    extraction that went through: if a regular file named [_chat.txt] is
    somewhere below the destination, the path of such a file is returned -
    the one directly in the destination if there is one; if there is none,
    [FileNotFoundError] is raised.  The search changes nothing on the
    disk. *)
Theorem unzip_chat_locates_chat_file extractall zip_path extract_to root root1 root2 es :
  Fs.exists_ zip_path root = true →
  Fs.makedirs extract_to root = Some root1 →
  extractall zip_path extract_to root1 = (Ret (), root2) →
  Fs.lookup extract_to root2 = Some (Fs.Dir es) →
  (∀ es', Fs.entry CHAT_FILE_NAME es ≠ Some (Fs.Dir es')) →
  let result := unzip_chat extractall zip_path extract_to root in
  snd result = root2 ∧
  ( chat_files extract_to root2 = [] → fst result = Raise FileNotFoundError ) ∧
  ( chat_files extract_to root2 ≠ [] →
    ∃ p, fst result = Ret p ∧ p ∈ chat_files extract_to root2 ) ∧
  ( Fs.entry CHAT_FILE_NAME es = Some Fs.File →
    fst result = Ret (extract_to ++ [CHAT_FILE_NAME]) ).
Proof.
  intros Hzip Hmk Hex Hdest Hnofolder result.
  destruct (unzip_chat_finds_chat_file extractall zip_path extract_to root root1 root2 es
              Hzip Hmk Hex Hdest Hnofolder) as [Hraise Hret].
  fold result in Hraise, Hret.
  pose proof (unzip_chat_extracted extractall zip_path extract_to root root1 root2
                Hzip Hmk Hex) as Hrun.
  fold result in Hrun.
  split_and!.
  - by rewrite Hrun.
  - apply Hraise.
  - intros Hsome. destruct (fst result) as [p|e] eqn:Hres.
    + exists p. split; [done|]. by apply Hret.
    + assert (e = FileNotFoundError) as ->.
      { rewrite Hrun in Hres. simpl in Hres.
        destruct (Fs.exists_ _ root2); [done|].
        destruct (find_chat _); [done|]. by injection Hres as <-. }
      destruct Hsome. by apply Hraise.
  - intros Hentry. rewrite Hrun. simpl.
    unfold Fs.exists_. rewrite lookup_snoc, Hdest. simpl. rewrite Hentry.
    by rewrite bool_decide_eq_true_2 by eauto.
Qed.

End Locate.

Lemma unzip_chat_locates_chat_file_witness :
  ∃ p,
    fst (unzip_chat (Zip.extractall archive_nested) ZIP_FILE EXTRACT_DIR disk_sample)
      = Ret p ∧
    p ∈ chat_files EXTRACT_DIR disk_nested_extracted.
Proof.
  apply (unzip_chat_locates_chat_file (Zip.extractall archive_nested)
           ZIP_FILE EXTRACT_DIR disk_sample
           (Fs.Dir [("chat.zip", Fs.File); ("extracted_chat", Fs.Dir [])])
           disk_nested_extracted
           [ ("WhatsApp Chat",
              Fs.Dir [ ("_chat.txt", Fs.File); ("note.opus", Fs.File) ]) ]).
  - reflexivity.
  - reflexivity.
  - reflexivity.
  - reflexivity.
  - intros es'. vm_compute. discriminate.
  - vm_compute. discriminate.
Defined.

(* ===================================================================== *)
(** * How the date of a header line is read                              *)
(* ===================================================================== *)

Section HeaderDate.

Implicit Types (s t : string) (line ds : string) (d : datetime).






















End HeaderDate.



